(** * jmp: a directory-bookmark manager

    A shallow embedding of [jmp.py] (classes [JmpStore] and [JmpBackend]) and
    the properties of its bookmark store and resolution engine.

    - Python integers are [Z]; the flag bitmask is tested with [Z.land] and
      cleared with [Z.lxor], as the source does.
    - [self.jmp_table] is a Python [dict]: it keeps insertion order, which
      [print_list] exposes through a stable sort, so it is an association
      list with the dictionary operations written out.
    - [os.path] is an interface of the environment ([OsPath]), [pickle] another
      ([Pickle]).
    - [expand] is recursive through the table with no bound of its own: it
      takes fuel, one unit per loop iteration or call, and answers [None] when
      the fuel is gone.  Exceptions are the [Raises] results.
      [expand_limited] is the same function under the recursion limit of the
      interpreter, which ends a recursion too deep in [RecursionError]. *)

From Stdlib Require Import ZArith List String Ascii Bool Lia Permutation Sorted.
From Stdlib Require Import DecimalString.
Import ListNotations.
Local Open Scope string_scope.
Local Open Scope Z_scope.

(** ** Results and exceptions *)

Inductive exn : Type :=
| KeyError (key : string)
| JmpException (msg : string)
| EOFError
| UnpicklingError.

Inductive result (A : Type) : Type :=
| Returns (a : A)
| Raises (e : exn).
Arguments Returns {A} a.
Arguments Raises {A} e.

(** A run that may exhaust its fuel ([None]) or end in a [result]. *)
Definition run (A : Type) : Type := option (result A).

Definition ret {A} (a : A) : run A := Some (Returns a).
Definition raise {A} (e : exn) : run A := Some (Raises e).
Definition bind {A B} (m : run A) (k : A -> run B) : run B :=
  match m with
  | None => None
  | Some (Raises e) => Some (Raises e)
  | Some (Returns a) => k a
  end.

Notation "x <- m ;; k" := (bind m (fun x => k))
  (at level 61, m at next level, right associativity).

(** ** Strings: [str.split], [str.join], [str.lower], [str.format] of an int *)

(** [target.split(os.path.sep)]: never empty, [split "" = [""]]. *)
Fixpoint split (sep : ascii) (s : string) : list string :=
  match s with
  | EmptyString => [EmptyString]
  | String c s' =>
      if Ascii.eqb c sep then EmptyString :: split sep s'
      else match split sep s' with
           | h :: t => String c h :: t
           | [] => [String c EmptyString]
           end
  end.

(** [sep.join(parts)]. *)
Definition join (sep : string) (parts : list string) : string :=
  String.concat sep parts.

Definition os_sep : ascii := "/"%char.

Definition lower_ascii (c : ascii) : ascii :=
  let n := nat_of_ascii c in
  if (Nat.leb 65 n && Nat.leb n 90)%bool then ascii_of_nat (n + 32) else c.

Fixpoint lower (s : string) : string :=
  match s with
  | EmptyString => EmptyString
  | String c s' => String (lower_ascii c) (lower s')
  end.

(** ["{}".format(n)] for an integer. *)
Definition str_of_int (n : Z) : string := NilZero.string_of_int (Z.to_int n).

(** ** The stored record, [class JmpStore] *)

Definition CURRENT_VERSION : Z := 5.

Record JmpStore : Type := mkJmpStore {
  version : Z;
  flags : Z;
  target : string;
  used : Z
}.

(** [JmpStore.__init__(flags, target)]. *)
Definition JmpStore_init (fl : Z) (tgt : string) : JmpStore :=
  mkJmpStore CURRENT_VERSION fl tgt 0.

Definition bump_used (s : JmpStore) : JmpStore :=
  mkJmpStore (version s) (flags s) (target s) (used s + 1).

(** ** The jump table: a [dict] in insertion order *)

Definition table : Type := list (string * JmpStore).

(** [self.jmp_table[k]], [None] standing for [KeyError]. *)
Fixpoint dict_get (k : string) (t : table) : option JmpStore :=
  match t with
  | [] => None
  | (k', v) :: t' => if String.eqb k k' then Some v else dict_get k t'
  end.

(** [k in self.jmp_table]. *)
Definition dict_mem (k : string) (t : table) : bool :=
  match dict_get k t with Some _ => true | None => false end.

(** [self.jmp_table[k] = v]: an existing key keeps its place, a new one goes
    last. *)
Fixpoint dict_set (k : string) (v : JmpStore) (t : table) : table :=
  match t with
  | [] => [(k, v)]
  | (k', v') :: t' =>
      if String.eqb k k' then (k', v) :: t' else (k', v') :: dict_set k v t'
  end.

(** What [self.jmp_table.pop(k)] leaves. *)
Fixpoint dict_remove (k : string) (t : table) : table :=
  match t with
  | [] => []
  | (k', v') :: t' =>
      if String.eqb k k' then t' else (k', v') :: dict_remove k t'
  end.

(** ** The environment: [os.path] *)

Class OsPath : Type := {
  expanduser : string -> string;
  expandvars : string -> string;
  isdir : string -> bool;
  abspath : string -> string
}.

(** ** The backend, [class JmpBackend] *)

Definition USER_FLAG : Z := Z.shiftl 1 0.
Definition TAG_FLAG : Z := Z.shiftl 1 1.
Definition ENV_FLAG : Z := Z.shiftl 1 2.

Record JmpBackend : Type := mkBackend {
  jmp_table : table;
  SUPPRESS : bool;
  LOG_DEBUG : bool
}.

Definition with_table (b : JmpBackend) (t : table) : JmpBackend :=
  mkBackend t (SUPPRESS b) (LOG_DEBUG b).

(** [JmpBackend.__init__]: an empty table and the class defaults. *)
Definition JmpBackend_init : JmpBackend := mkBackend [] false false.

Inductive stream : Type := Stdout | Stderr.

(** What a call printed, oldest line first. *)
Definition output : Type := list (stream * string).

(** [log(msg, debug, fd)]. *)
Definition log (b : JmpBackend) (msg : string) (debug : bool) (fd : stream)
  : output :=
  if SUPPRESS b then []
  else if (negb debug || LOG_DEBUG b)%bool then [(fd, msg)] else [].

(** [debug(msg)]. *)
Definition debug (b : JmpBackend) (msg : string) : output :=
  log b msg true Stderr.

(** Python's truth of [flags & bit]. *)
Definition has_flag (fl bit : Z) : bool := negb (Z.land fl bit =? 0).

Section WithOs.
Context {os : OsPath}.

(** [expand(flags, target)]. *)
Fixpoint expand (fuel : nat) (t : table) (fl : Z) (tgt : string)
  : run string :=
  match fuel with
  | O => None
  | S fuel' =>
      if fl =? 0 then ret tgt
      else if has_flag fl USER_FLAG then
        expand fuel' t (Z.lxor fl USER_FLAG) (expanduser tgt)
      else if has_flag fl TAG_FLAG then
        let splitpath := split os_sep tgt in
        match dict_get (hd EmptyString splitpath) t with
        | None => raise (KeyError (hd EmptyString splitpath))
        | Some store =>
            root <- expand fuel' t (flags store) (target store) ;;
            expand fuel' t (Z.lxor fl TAG_FLAG)
              (join "/" (root :: tl splitpath))
        end
      else if has_flag fl ENV_FLAG then
        expand fuel' t (Z.lxor fl ENV_FLAG) (expandvars tgt)
      else raise (JmpException "Unexpected flag bit set.")
  end.

(** [get_flags(target)]. *)
Definition get_flags (t : table) (tgt : string) : Z * string :=
  let fl := 0 in
  let fl :=
    if dict_mem (hd EmptyString (split os_sep tgt)) t then Z.lor fl TAG_FLAG
    else if String.prefix "~" tgt then Z.lor fl USER_FLAG
    else fl in
  let fl :=
    if negb (String.eqb tgt (expandvars tgt)) then Z.lor fl ENV_FLAG
    else fl in
  (fl, tgt).

(** [store_jmp(tag, target, absolute)]. *)
Definition store_jmp (fuel : nat) (b : JmpBackend) (tag tgt : string)
    (absolute : bool) : run (bool * JmpBackend * output) :=
  let (fl, tgt) := get_flags (jmp_table b) tgt in
  let tgt := if ((fl =? 0) && absolute)%bool
             then abspath tgt else tgt in
  path <- expand fuel (jmp_table b) fl tgt ;;
  if negb (isdir path) then
    ret (false, b, log b (tgt ++ " is not a jumpable directory.") false Stdout)
  else
    ret (true,
         with_table b (dict_set tag (JmpStore_init fl tgt) (jmp_table b)),
         log b ("Added jmp " ++ tag ++ " -> " ++ tgt) false Stdout).

(** [delete_jmp(tag)]. *)
Definition delete_jmp (b : JmpBackend) (tag : string)
  : bool * JmpBackend * output :=
  match dict_get tag (jmp_table b) with
  | Some _ =>
      (true, with_table b (dict_remove tag (jmp_table b)),
       log b ("Deleted tag " ++ tag ++ ".") false Stdout)
  | None =>
      (false, b, log b ("Tag " ++ tag ++ " is not registered.") false Stdout)
  end.

(** [jmp_to(tag)]; [answer] is the line typed at the prompt, read only when
    the prompt is shown. *)
Definition jmp_to (fuel : nat) (b : JmpBackend) (answer : string)
    (tag : string) : run (bool * JmpBackend * output) :=
  let (fl, tgt) := get_flags (jmp_table b) tag in
  path <- expand fuel (jmp_table b) fl tgt ;;
  if (negb (isdir path) && negb (String.eqb tgt "-"))%bool then
    let out := log b ("Tag " ++ tag ++ " points to an invalid path.")
                 false Stderr in
    if (has_flag fl TAG_FLAG && dict_mem tag (jmp_table b))%bool then
      let out := (out ++ [(Stderr, "delete tag? (y/n): ")])%list in
      if String.eqb (lower answer) "y" then
        let '(_, b', out') := delete_jmp b tag in
        ret (false, b', (out ++ out')%list)
      else ret (false, b, out)
    else ret (false, b, out)
  else
    let b' :=
      if (has_flag fl TAG_FLAG && dict_mem tag (jmp_table b))%bool then
        match dict_get tag (jmp_table b) with
        | Some s => with_table b (dict_set tag (bump_used s) (jmp_table b))
        | None => b
        end
      else b in
    ret (true, b', log b ("bash: " ++ path) false Stdout).

End WithOs.

(** ** Listing: [sorted(..., key=...)] and [print_list] *)

(** Python's [sorted] is stable: equal keys keep the order of the input.
    [insert_by] puts [x] before the first element whose key is not smaller,
    and the input is inserted from its end. *)
Fixpoint insert_by {A} (key : A -> Z) (x : A) (l : list A) : list A :=
  match l with
  | [] => [x]
  | y :: l' => if key x <=? key y then x :: l else y :: insert_by key x l'
  end.

Fixpoint sorted {A} (key : A -> Z) (l : list A) : list A :=
  match l with
  | [] => []
  | x :: l' => insert_by key x (sorted key l')
  end.

(** The key of [print_list]: [lambda j: -j[1].used]. *)
Definition list_key (j : string * JmpStore) : Z := - used (snd j).

Definition list_line (j : string * JmpStore) : string :=
  "  " ++ fst j ++ " (" ++ str_of_int (used (snd j)) ++ ") -> "
       ++ target (snd j).

(** [print_list()]. *)
Definition print_list (b : JmpBackend) : output :=
  (log b "jmp_table:" false Stdout
   ++ (match jmp_table b with
       | [] => log b "  empty" false Stdout
       | _ :: _ => []
       end)
   ++ flat_map (fun j => log b (list_line j) false Stdout)
        (sorted list_key (jmp_table b)))%list.

(** ** Persistence: [load_table] and [save_table] *)

(** [pickle] as the backend uses it: what [pickle.dump] writes for a table and
    what [pickle.load] makes of a file's data. *)
Class Pickle : Type := {
  file_data : Type;
  pickle_dump : table -> file_data;
  pickle_load : file_data -> result table
}.

Section WithPickle.
Context {pk : Pickle}.

(** [load_table()]; [file] is the data of the store file, [None] when
    [os.path.isfile] is false for it. *)
Definition load_table (b : JmpBackend) (file : option file_data)
  : result (JmpBackend * output) :=
  let loaded :=
    match file with
    | Some data =>
        match pickle_load data with
        | Returns t => Returns (with_table b t)
        | Raises EOFError => Returns (with_table b [])
        | Raises e => Raises e
        end
    | None => Returns b
    end in
  match loaded with
  | Returns b' => Returns (b', debug b' "Successfully loaded jmp table.")
  | Raises e => Raises e
  end.

(** [save_table()]: the new data of the store file, and what was printed. *)
Definition save_table (b : JmpBackend) : option file_data * output :=
  (Some (pickle_dump (jmp_table b)),
   debug b "Successfully saved jmp table.").

End WithPickle.

(** ** Specification vocabulary *)

(** A flag set over the three indirection kinds, as the bitmask the code
    stores. *)
Definition mask (user tag env : bool) : Z :=
  Z.lor (Z.lor (if user then USER_FLAG else 0) (if tag then TAG_FLAG else 0))
        (if env then ENV_FLAG else 0).

(** The tag an entry refers to when it is expanded: the first component of its
    target as the tag step sees it, after the home step when that flag is set
    too. *)
Definition tag_ref {os : OsPath} (s : JmpStore) : option string :=
  if has_flag (flags s) TAG_FLAG then
    Some (hd EmptyString
            (split os_sep (if has_flag (flags s) USER_FLAG
                           then expanduser (target s) else target s)))
  else None.

(** [rank] decreases along every tag reference of the table. *)
Definition acyclic_by {os : OsPath} (rank : string -> nat) (t : table) : bool :=
  forallb (fun kv =>
             match tag_ref (snd kv) with
             | Some h => if dict_mem h t then Nat.ltb (rank h) (rank (fst kv))
                         else true
             | None => true
             end) t.

(** The tag step of [expand] on [tgt], the referenced entry expanded with
    [fuel]. *)
Definition tag_step {os : OsPath} (fuel : nat) (t : table) (tgt : string)
  : run string :=
  let splitpath := split os_sep tgt in
  match dict_get (hd EmptyString splitpath) t with
  | None => raise (KeyError (hd EmptyString splitpath))
  | Some store =>
      root <- expand fuel t (flags store) (target store) ;;
      ret (join "/" (root :: tl splitpath))
  end.

(** ** [expand] under the interpreter's recursion limit *)

(** A call under a recursion limit: a value, an exception of the program, or
    the interpreter's [RecursionError] when the call stack is full. *)
Inductive limited (A : Type) : Type :=
| Value (a : A)
| Error (e : exn)
| RecursionError.
Arguments Value {A} a.
Arguments Error {A} e.
Arguments RecursionError {A}.

(** The [while] loop of [expand], with [call] for [self.expand]: a turn
    clears one of the three flags, so no loop takes more than four turns
    (the fourth returns or raises), and [turns] is never used up from 4. *)
Fixpoint expand_loop {os : OsPath} (call : Z -> string -> limited string)
    (turns : nat) (t : table) (fl : Z) (tgt : string) : limited string :=
  match turns with
  | O => Error (JmpException "Unexpected flag bit set.")
  | S turns' =>
      if fl =? 0 then Value tgt
      else if has_flag fl USER_FLAG then
        expand_loop call turns' t (Z.lxor fl USER_FLAG) (expanduser tgt)
      else if has_flag fl TAG_FLAG then
        let splitpath := split os_sep tgt in
        match dict_get (hd EmptyString splitpath) t with
        | None => Error (KeyError (hd EmptyString splitpath))
        | Some store =>
            match call (flags store) (target store) with
            | Value root =>
                expand_loop call turns' t (Z.lxor fl TAG_FLAG)
                  (join "/" (root :: tl splitpath))
            | Error e => Error e
            | RecursionError => RecursionError
            end
        end
      else if has_flag fl ENV_FLAG then
        expand_loop call turns' t (Z.lxor fl ENV_FLAG) (expandvars tgt)
      else Error (JmpException "Unexpected flag bit set.")
  end.

(** [expand(flags, target)] when [frames] more calls of [expand] fit on the
    interpreter's stack: a call that does not fit raises [RecursionError],
    which nothing in [expand] catches. *)
Fixpoint expand_limited {os : OsPath} (frames : nat) (t : table) (fl : Z)
    (tgt : string) : limited string :=
  match frames with
  | O => RecursionError
  | S frames' => expand_loop (expand_limited frames' t) 4 t fl tgt
  end.

(** A result that came without reaching the limit. *)
Definition unlimited {A} (r : result A) : limited A :=
  match r with
  | Returns a => Value a
  | Raises e => Error e
  end.

(** How many of the three known flags are set. *)
Definition known_count (fl : Z) : nat :=
  (Nat.b2n (has_flag fl USER_FLAG) + Nat.b2n (has_flag fl TAG_FLAG)
   + Nat.b2n (has_flag fl ENV_FLAG))%nat.

(** Every chain of tag references of the table, counted by [rank], fits in
    [frames] calls below the first one. *)
Definition within_limit (rank : string -> nat) (frames : nat) (t : table)
  : bool :=
  (Nat.ltb 0 frames
   && forallb (fun kv => Nat.ltb (S (rank (fst kv))) frames) t)%bool.

(** Every tag of [cycle] is stored with a tag reference to a tag of
    [cycle]. *)
Definition closed_cycle {os : OsPath} (cycle : list string) (t : table)
  : bool :=
  forallb (fun k =>
             match dict_get k t with
             | Some s =>
                 match tag_ref s with
                 | Some h => existsb (String.eqb h) cycle
                 | None => false
                 end
             | None => false
             end) cycle.

(** Whatever the recursion limit, the expansion runs into it. *)
Definition hits_limit {os : OsPath} (t : table) (fl : Z) (tgt : string)
  : Prop :=
  forall frames, expand_limited frames t fl tgt = RecursionError.

(** An outcome [expand] can have: a path, [KeyError], its own
    [JmpException], or [RecursionError]. *)
Definition expand_outcome (r : limited string) : Prop :=
  match r with
  | Value _ => True
  | Error (KeyError _) => True
  | Error (JmpException msg) => msg = "Unexpected flag bit set."
  | Error _ => False
  | RecursionError => True
  end.

(** ** A concrete environment, for examples *)

Module Demo.

(** A home directory [/home/u], a variable [$HOME] naming it, and four
    directories. *)
Definition os : OsPath := {|
  expanduser s :=
    if (String.eqb s "~" || String.prefix "~/" s)%bool
    then "/home/u" ++ String.substring 1 (String.length s - 1) s else s;
  expandvars s :=
    if String.prefix "$HOME" s
    then "/home/u" ++ String.substring 5 (String.length s - 5) s else s;
  isdir p := existsb (String.eqb p) ["/"; "/tmp"; "/tmp/sub"; "/home/u"];
  abspath s := if String.prefix "/" s then s else "/home/u/" ++ s
|}.

(** Store files by what [pickle.load] makes of them: the dump of a table, an
    empty file ([EOFError: Ran out of input]) and bytes that are no pickle
    ([UnpicklingError: invalid load key]). *)
Inductive disk : Type :=
| Dumped (t : table)
| EmptyFile
| Garbage.

Definition pk : Pickle := {|
  file_data := disk;
  pickle_dump t := Dumped t;
  pickle_load d :=
    match d with
    | Dumped t => Returns t
    | EmptyFile => Raises EOFError
    | Garbage => Raises UnpicklingError
    end
|}.

Definition backend (t : table) : JmpBackend := mkBackend t false false.

(** [jmp a /tmp], [jmp b a/sub], then [jmp -d a]: [b] is left pointing into
    a tag that is gone. *)
Definition dangling : table := [("b", mkJmpStore 5 2 "a/sub" 0)].

(** [jmp a /tmp], then [jmp a a]: [a] refers to itself. *)
Definition selfref : table := [("a", mkJmpStore 5 2 "a" 0)].

(** [jmp a /tmp], then [jmp b a/sub]. *)
Definition chain : table :=
  [("a", mkJmpStore 5 0 "/tmp" 0); ("b", mkJmpStore 5 2 "a/sub" 0)].

(** [jmp '~' /tmp]: a tag named like the home marker. *)
Definition tilde : table := [("~", mkJmpStore 5 0 "/tmp" 0)].

(** [jmp b /tmp], then [jmp a /tmp]: two tags never jumped through. *)
Definition ties : table :=
  [("b", mkJmpStore 5 0 "/tmp" 0); ("a", mkJmpStore 5 0 "/tmp" 0)].

Definition chain_rank (k : string) : nat :=
  if String.eqb k "b" then 1%nat else 0%nat.

(** [jmp x /tmp], [jmp y x], then [jmp x y]: [x] and [y] refer to each
    other. *)
Definition mutual : table :=
  [("x", mkJmpStore 5 2 "y" 0); ("y", mkJmpStore 5 2 "x" 0)].

End Demo.

(** ** [JmpStore.upgrade] *)

(** The loop of [upgrade], one unit of fuel a turn. *)
Fixpoint upgrade (fuel : nat) (s : JmpStore) : option JmpStore :=
  match fuel with
  | O => None
  | S fuel' =>
      if version s <? CURRENT_VERSION
      then upgrade fuel'
             (mkJmpStore (version s + 1) (flags s) (target s) (used s))
      else Some s
  end.

(** ** More of [str] and [os.path] *)

(** [sep in s]. *)
Fixpoint contains (sep : ascii) (s : string) : bool :=
  match s with
  | EmptyString => false
  | String c s' => (Ascii.eqb c sep || contains sep s')%bool
  end.

(** [s.rfind(sep) + 1]: the length of the part of [s] up to its last
    separator, 0 when it has none. *)
Fixpoint rfind_next (sep : ascii) (s : string) : nat :=
  match s with
  | EmptyString => 0%nat
  | String c s' =>
      match rfind_next sep s' with
      | O => if Ascii.eqb c sep then 1%nat else 0%nat
      | S k => S (S k)
      end
  end.

(** [s.rstrip(sep)]. *)
Fixpoint rstrip (sep : ascii) (s : string) : string :=
  match s with
  | EmptyString => EmptyString
  | String c s' =>
      match rstrip sep s' with
      | EmptyString =>
          if Ascii.eqb c sep then EmptyString else String c EmptyString
      | r => String c r
      end
  end.

(** [s == sep * len(s)]. *)
Fixpoint all_sep (sep : ascii) (s : string) : bool :=
  match s with
  | EmptyString => true
  | String c s' => (Ascii.eqb c sep && all_sep sep s')%bool
  end.

(** [os.path.split(p)] of [posixpath]. *)
Definition os_path_split (p : string) : string * string :=
  let i := rfind_next os_sep p in
  let head := String.substring 0 i p in
  let tail := String.substring i (String.length p - i) p in
  let head :=
    if (negb (String.eqb head "") && negb (all_sep os_sep head))%bool
    then rstrip os_sep head else head in
  (head, tail).

(** [s.endswith(sep)]. *)
Fixpoint ends_with (sep : ascii) (s : string) : bool :=
  match s with
  | EmptyString => false
  | String c EmptyString => Ascii.eqb c sep
  | String _ s' => ends_with sep s'
  end.

(** [os.path.join(a, b)] of [posixpath]. *)
Definition os_path_join (a b : string) : string :=
  if String.prefix "/" b then b
  else if (String.eqb a "" || ends_with os_sep a)%bool then a ++ b
  else a ++ "/" ++ b.

(** ['"{}"'.format(name)]. *)
Definition quoted (name : string) : string :=
  String "034"%char (name ++ String "034"%char EmptyString).

(** [sorted] on strings, which Python compares by code points. *)
Fixpoint insert_str (x : string) (l : list string) : list string :=
  match l with
  | [] => [x]
  | y :: l' => if String.leb x y then x :: l else y :: insert_str x l'
  end.

Fixpoint sorted_str (l : list string) : list string :=
  match l with
  | [] => []
  | x :: l' => insert_str x (sorted_str l')
  end.

(** ** The rest of the environment *)

(** The working directory and what the process does to the system around it:
    [os.chdir] and [os.listdir] (no result when they raise [OSError]),
    [os.path.isdir] seen from a working directory, [os.makedirs] (whether it
    succeeds), [os.getcwd], and [subprocess.run] under a shell, which gives
    the exit code and the captured output, decoded and stripped. *)
Class OsSys : Type := {
  dir : Type;
  chdir : dir -> string -> option dir;
  listdir : dir -> string -> option (list string);
  isdir_at : dir -> string -> bool;
  makedirs : string -> bool;
  getcwd : dir -> string;
  subprocess_run : dir -> string -> option string -> Z * string
}.

(** How a call, or the process, ends. *)
Inductive ending (A : Type) : Type :=
| Finished (a : A)
| Uncaught (e : exn)
| UncaughtOSError
| SystemExit (code : Z).
Arguments Finished {A} a.
Arguments Uncaught {A} e.
Arguments UncaughtOSError {A}.
Arguments SystemExit {A} code.

Definition lift {A} (m : run A) : option (ending A) :=
  match m with
  | None => None
  | Some (Returns a) => Some (Finished a)
  | Some (Raises e) => Some (Uncaught e)
  end.

(** The key of [completion]: [lambda k: -self.jmp_table[k].used]. *)
Definition completion_key (t : table) (k : string) : Z :=
  match dict_get k t with
  | Some s => - used s
  | None => 0
  end.

Section WithSys.
Context {os : OsPath} {sys : OsSys}.

(** [JmpBackend(path)]: the backend and what creating it printed, or no
    backend when the storage directory cannot be made ([sys.exit(1)]). *)
Definition JmpBackend_new (path : string) : option JmpBackend * output :=
  let epath := expanduser (expandvars path) in
  if negb (isdir epath) then
    if makedirs epath
    then (Some JmpBackend_init,
          debug JmpBackend_init
            ("Created new storage directory " ++ epath ++ "."))
    else (None,
          log JmpBackend_init
            ("Could not make storage directory " ++ epath ++ ".") false Stdout)
  else (Some JmpBackend_init, []).

(** [completion(opts)], from the working directory [cwd]; the result has the
    working directory the call leaves. *)
Definition completion (fuel : nat) (b : JmpBackend) (cwd : dir)
    (opts : list string) : option (ending (output * dir)) :=
  let cur := if Nat.ltb 1 (List.length opts)
             then Some (last opts EmptyString) else None in
  let in_dir :=
    match cur with
    | Some c => (negb (String.eqb c "") && contains os_sep c)%bool
    | None => false
    end in
  if in_dir then
    let base := fst (os_path_split (last opts EmptyString)) in
    match (let (fl, tgt) := get_flags (jmp_table b) base in
           expand fuel (jmp_table b) fl tgt) with
    | None => None
    | Some (Raises e) => Some (Uncaught e)
    | Some (Returns ebase) =>
        match chdir cwd ebase with
        | None => Some (Finished ([], cwd))
        | Some cwd' =>
            match listdir cwd' ebase with
            | None => Some (Finished ([], cwd'))
            | Some names =>
                let alist :=
                  sorted_str (map (os_path_join base)
                                (filter (isdir_at cwd') names)) in
                Some (Finished
                        (log b (join " " (map quoted alist)) false Stdout,
                         cwd'))
            end
        end
    end
  else
    let output :=
      map quoted
        (sorted (completion_key (jmp_table b)) (map fst (jmp_table b))) in
    match output with
    | [] =>
        match listdir cwd "." with
        | None => Some UncaughtOSError
        | Some names =>
            Some (Finished
                    (log b (join " " (map quoted names)) false Stdout, cwd))
        end
    | _ :: _ => Some (Finished (log b (join " " output) false Stdout, cwd))
    end.

(** [git_fzf()]. *)
Definition git_fzf (b : JmpBackend) (cwd : dir) : output :=
  let ret := subprocess_run cwd "git rev-parse --show-toplevel" None in
  let root_dir := getcwd cwd in
  let root_dir := if fst ret =? 0 then snd ret else root_dir in
  let ret :=
    subprocess_run cwd ("realpath --relative-to=. " ++ root_dir) None in
  let relative_path := "" in
  let relative_path := if fst ret =? 0 then snd ret else relative_path in
  let ret := subprocess_run cwd "fzf --exact" (Some root_dir) in
  if fst ret =? 0 then
    let path := snd ret in
    log b ("bash: "
           ++ join "/" (filter (fun x => negb (String.eqb x ""))
                          [relative_path; path]))
      false Stdout
  else [].

(** [default_action()]. *)
Definition default_action (b : JmpBackend) (cwd : dir) : output :=
  git_fzf b cwd.

End WithSys.

(** ** [main] *)

(** The parsed arguments [main] reads: [optlist] is [None] without
    [--complete], [tag] and [target] are [None] when left out. *)
Record Args : Type := mkArgs {
  args_optlist : option (list string);
  args_list : bool;
  args_clear : bool;
  args_absolute : bool;
  args_delete : bool;
  args_expand : bool;
  args_tag : option string;
  args_target : option string
}.

(** Python's truth of a string or [None], and of a list or [None]. *)
Definition truthy_str (s : option string) : bool :=
  match s with
  | Some s => negb (String.eqb s "")
  | None => false
  end.

Definition truthy_list {A} (l : option (list A)) : bool :=
  match l with
  | Some (_ :: _) => true
  | _ => false
  end.

Definition str_or_empty (s : option string) : string :=
  match s with Some s => s | None => EmptyString end.

Section WithAll.
Context {os : OsPath} {sys : OsSys} {pk : Pickle}.

(** The body of the [with jmpback:] block of [main]. *)
Definition main_body (fuel : nat) (args : Args) (b : JmpBackend) (cwd : dir)
    (answer : string) : option (ending (JmpBackend * output)) :=
  let tag := str_or_empty (args_tag args) in
  if truthy_list (args_optlist args) then
    match completion fuel b cwd
            (match args_optlist args with Some l => l | None => [] end) with
    | None => None
    | Some (Finished (out, _)) => Some (Finished (b, out))
    | Some (Uncaught e) => Some (Uncaught e)
    | Some UncaughtOSError => Some UncaughtOSError
    | Some (SystemExit c) => Some (SystemExit c)
    end
  else if args_list args then Some (Finished (b, print_list b))
  else if args_clear args then Some (Finished (with_table b [], []))
  else if (truthy_str (args_tag args)
           && negb (truthy_str (args_target args)))%bool then
    if args_delete args then
      let '(_, b', out) := delete_jmp b tag in Some (Finished (b', out))
    else if args_expand args then
      lift (path <- (let (fl, tgt) := get_flags (jmp_table b) tag in
                     expand fuel (jmp_table b) fl tgt) ;;
            ret (b, log b path false Stdout))
    else
      lift (r <- jmp_to fuel b answer tag ;;
            ret (snd (fst r), snd r))
  else if (truthy_str (args_tag args)
           && truthy_str (args_target args))%bool then
    lift (r <- store_jmp fuel b tag (str_or_empty (args_target args))
                 (args_absolute args) ;;
          ret (snd (fst r), snd r))
  else Some (Finished (b, default_action b cwd)).

(** [main()], given the parsed arguments: what is in the store file
    afterwards, what was printed, and how the process ends.  [__enter__]
    loads the table and [__exit__] saves it, also when the body raises. *)
Definition main (fuel : nat) (args : Args) (cwd : dir)
    (file : option file_data) (answer : string)
  : option (option file_data * output * ending unit) :=
  match JmpBackend_new "~/.jmp_pad" with
  | (None, out0) => Some (file, out0, SystemExit 1)
  | (Some b0, out0) =>
      match load_table b0 file with
      | Raises e => Some (file, out0, Uncaught e)
      | Returns (b1, out1) =>
          match main_body fuel args b1 cwd answer with
          | None => None
          | Some (Finished (b2, out2)) =>
              let (file', out3) := save_table b2 in
              Some (file', (out0 ++ out1 ++ out2 ++ out3)%list, Finished tt)
          | Some (Uncaught e) =>
              let (file', out3) := save_table b1 in
              Some (file', (out0 ++ out1 ++ out3)%list, Uncaught e)
          | Some UncaughtOSError =>
              let (file', out3) := save_table b1 in
              Some (file', (out0 ++ out1 ++ out3)%list, UncaughtOSError)
          | Some (SystemExit c) =>
              let (file', out3) := save_table b1 in
              Some (file', (out0 ++ out1 ++ out3)%list, SystemExit c)
          end
      end
  end.

End WithAll.

(** ** More specification vocabulary *)

(** The flag bits [expand] knows nothing of. *)
Definition unknown_bits (fl : Z) : Z :=
  Z.ldiff fl (Z.lor (Z.lor USER_FLAG TAG_FLAG) ENV_FLAG).

(** What follows the first component of a target, separator included. *)
Definition rest_of (tgt : string) : string :=
  let h := hd EmptyString (split os_sep tgt) in
  String.substring (String.length h) (String.length tgt - String.length h) tgt.

(** The storage directory of [main] is there or can be made. *)
Definition storage_ok {os : OsPath} {sys : OsSys} : bool :=
  let epath := expanduser (expandvars "~/.jmp_pad") in
  (isdir epath || makedirs epath)%bool.

(** What [JmpBackend_new] prints when it cannot be made. *)
Definition storage_error {os : OsPath} : output :=
  [(Stdout,
    "Could not make storage directory "
    ++ expanduser (expandvars "~/.jmp_pad") ++ ".")].

(** The arguments of [jmp tag], [jmp tag target] (with [-r] when [absolute]
    is false), [jmp -l] and [jmp --clear]. *)
Definition jump_request (tag : string) : Args :=
  mkArgs None false false true false false (Some tag) None.


Definition list_request : Args :=
  mkArgs None true false true false false None None.

Definition clear_request : Args :=
  mkArgs None false true true false false None None.

(** ** A concrete system, for examples *)

Module DemoSys.

(** Working directories by name: [/home/u] holds [docs] and the file
    [notes.txt], [/tmp] holds [sub]; [git] finds no repository and the
    picker answers [docs]. *)
Definition sys : OsSys := {|
  dir := string;
  chdir cwd p :=
    if String.eqb p "/tmp" then Some "/tmp"
    else if String.eqb p "/home/u" then Some "/home/u" else None;
  listdir cwd p :=
    if String.eqb cwd "/tmp" then Some ["sub"]
    else if String.eqb cwd "/home/u" then Some ["docs"; "notes.txt"]
    else None;
  isdir_at cwd f := (String.eqb f "sub" || String.eqb f "docs")%bool;
  makedirs p := true;
  getcwd cwd := cwd;
  subprocess_run cwd cmd at_dir :=
    if String.prefix "git" cmd then (128, "")
    else if String.prefix "realpath" cmd then (0, ".")
    else (0, "docs")
|}.

(** The same system with a home directory that cannot be written. *)
Definition readonly : OsSys := {|
  dir := string;
  chdir := chdir (OsSys := sys);
  listdir := listdir (OsSys := sys);
  isdir_at := isdir_at (OsSys := sys);
  makedirs p := false;
  getcwd := getcwd (OsSys := sys);
  subprocess_run := subprocess_run (OsSys := sys)
|}.

End DemoSys.

(** * Properties *)

(** ** Runs *)

Lemma bind_ret_r {A} (m : run A) : (x <- m ;; ret x) = m.
Proof. destruct m as [[a | e] |]; reflexivity. Qed.

Lemma bind_some {A B} (m : run A) (k : A -> run B) (r : result B) :
  bind m k = Some r ->
  (exists e, m = Some (Raises e) /\ r = Raises e)
  \/ (exists a, m = Some (Returns a) /\ k a = Some r).
Proof.
  destruct m as [[a | e] |]; simpl; intros H.
  - right. exists a. auto.
  - left. exists e. split; congruence.
  - discriminate.
Qed.

(** ** The flag bits *)

Lemma land_pow2 (x i : Z) :
  0 <= i -> Z.land x (2 ^ i) = 0 \/ Z.land x (2 ^ i) = 2 ^ i.
Proof.
  intros Hi. destruct (Z.testbit x i) eqn:Hb; [right | left];
    apply Z.bits_inj'; intros n Hn;
    rewrite Z.land_spec, Z.pow2_bits_eqb by lia.
  - destruct (Z.eqb_spec i n) as [-> | _].
    + rewrite Hb. reflexivity.
    + apply andb_false_r.
  - rewrite Z.bits_0. destruct (Z.eqb_spec i n) as [-> | _].
    + rewrite Hb. reflexivity.
    + apply andb_false_r.
Qed.

Lemma land_lxor_distr (a b c : Z) :
  Z.land (Z.lxor a b) c = Z.lxor (Z.land a c) (Z.land b c).
Proof.
  apply Z.bits_inj'; intros n _.
  rewrite Z.land_spec, !Z.lxor_spec, !Z.land_spec.
  destruct (Z.testbit a n), (Z.testbit b n), (Z.testbit c n); reflexivity.
Qed.

Lemma has_flag_0 (bit : Z) : has_flag 0 bit = false.
Proof. unfold has_flag. rewrite Z.land_0_l. reflexivity. Qed.

(** Clearing one flag leaves the tests of the others as they were. *)
Lemma has_flag_lxor_other (fl a b : Z) :
  Z.land a b = 0 -> has_flag (Z.lxor fl a) b = has_flag fl b.
Proof.
  intros H. unfold has_flag.
  rewrite land_lxor_distr, H, Z.lxor_0_r. reflexivity.
Qed.

(** A flag that was set is clear once it is xor-ed away. *)
Lemma has_flag_lxor_same (fl i : Z) :
  0 <= i -> has_flag fl (2 ^ i) = true -> has_flag (Z.lxor fl (2 ^ i)) (2 ^ i) = false.
Proof.
  intros Hi. unfold has_flag. rewrite land_lxor_distr, Z.land_diag.
  destruct (land_pow2 fl i Hi) as [-> | ->].
  - discriminate.
  - intros _. rewrite Z.lxor_nilpotent. reflexivity.
Qed.

Lemma USER_FLAG_pow : USER_FLAG = 2 ^ 0.
Proof. reflexivity. Qed.
Lemma TAG_FLAG_pow : TAG_FLAG = 2 ^ 1.
Proof. reflexivity. Qed.
Lemma ENV_FLAG_pow : ENV_FLAG = 2 ^ 2.
Proof. reflexivity. Qed.

(** ** The dictionary *)

Lemma dict_get_set_same (k : string) (v : JmpStore) (t : table) :
  dict_get k (dict_set k v t) = Some v.
Proof.
  induction t as [| [k' v'] t IH]; simpl.
  - rewrite String.eqb_refl. reflexivity.
  - destruct (String.eqb k k') eqn:E; simpl; rewrite E; auto.
Qed.

Lemma dict_get_set_other (k k0 : string) (v : JmpStore) (t : table) :
  k0 <> k -> dict_get k0 (dict_set k v t) = dict_get k0 t.
Proof.
  intros Hne. induction t as [| [k' v'] t IH]; simpl.
  - destruct (String.eqb_spec k0 k); [contradiction | reflexivity].
  - destruct (String.eqb_spec k k') as [<- | _]; simpl.
    + destruct (String.eqb_spec k0 k); [contradiction | reflexivity].
    + rewrite IH. reflexivity.
Qed.

Lemma dict_get_remove_other (k k0 : string) (t : table) :
  k0 <> k -> dict_get k0 (dict_remove k t) = dict_get k0 t.
Proof.
  intros Hne. induction t as [| [k' v'] t IH]; simpl; auto.
  destruct (String.eqb_spec k k') as [<- | _]; simpl.
  - destruct (String.eqb_spec k0 k); [contradiction | reflexivity].
  - rewrite IH. reflexivity.
Qed.

Lemma dict_get_In (k : string) (v : JmpStore) (t : table) :
  dict_get k t = Some v -> In (k, v) t.
Proof.
  induction t as [| [k' v'] t IH]; simpl; [discriminate |].
  destruct (String.eqb_spec k k') as [<- | _]; intros H.
  - left. congruence.
  - right. auto.
Qed.

Lemma dict_get_not_key (k : string) (t : table) :
  ~ In k (map fst t) -> dict_get k t = None.
Proof.
  induction t as [| [k' v'] t IH]; simpl; auto.
  intros H. destruct (String.eqb_spec k k') as [<- | _].
  - exfalso. apply H. left. reflexivity.
  - apply IH. intros Hin. apply H. right. exact Hin.
Qed.

Lemma dict_set_keys (k : string) (v : JmpStore) (t : table) :
  map fst (dict_set k v t)
  = if dict_mem k t then map fst t else (map fst t ++ [k])%list.
Proof.
  unfold dict_mem. induction t as [| [k' v'] t IH]; simpl; [reflexivity |].
  destruct (String.eqb k k'); simpl; [reflexivity |].
  rewrite IH. destruct (dict_get k t); reflexivity.
Qed.

Lemma dict_mem_key (k : string) (t : table) :
  dict_mem k t = false -> ~ In k (map fst t).
Proof.
  unfold dict_mem. induction t as [| [k' v'] t IH]; simpl; [tauto |].
  destruct (String.eqb_spec k k') as [-> | Hne]; [discriminate |].
  intros H [Heq | Hin]; [congruence | exact (IH H Hin)].
Qed.

(** The keys stay distinct under the updates of the backend. *)
Lemma dict_set_nodup (k : string) (v : JmpStore) (t : table) :
  NoDup (map fst t) -> NoDup (map fst (dict_set k v t)).
Proof.
  intros Hnd. rewrite dict_set_keys. destruct (dict_mem k t) eqn:Hmem.
  - exact Hnd.
  - apply NoDup_app; [exact Hnd | repeat constructor; intros [] | ].
    intros x Hx [<- | []]. exact (dict_mem_key _ _ Hmem Hx).
Qed.

Lemma dict_remove_keys_incl (k : string) (t : table) :
  incl (map fst (dict_remove k t)) (map fst t).
Proof.
  induction t as [| [k' v'] t IH]; simpl; [apply incl_refl |].
  destruct (String.eqb k k'); simpl.
  - apply incl_tl, incl_refl.
  - apply incl_cons; [left; reflexivity | apply incl_tl; exact IH].
Qed.

Lemma dict_remove_nodup (k : string) (t : table) :
  NoDup (map fst t) -> NoDup (map fst (dict_remove k t)).
Proof.
  induction t as [| [k' v'] t IH]; simpl; [auto |].
  intros Hnd. inversion Hnd as [| ? ? Hnotin Hnd']; subst.
  destruct (String.eqb k k'); simpl; [exact Hnd' |].
  constructor; [| apply IH; exact Hnd'].
  intros Hin. apply Hnotin. exact (dict_remove_keys_incl k t _ Hin).
Qed.

(** With distinct keys, as in a [dict], a popped key is gone. *)
Lemma dict_get_remove_same (k : string) (t : table) :
  NoDup (map fst t) -> dict_get k (dict_remove k t) = None.
Proof.
  induction t as [| [k' v'] t IH]; simpl; auto.
  intros Hnd. inversion Hnd as [| ? ? Hnotin Hnd']; subst.
  destruct (String.eqb_spec k k') as [<- | Hne]; simpl.
  - apply dict_get_not_key. exact Hnotin.
  - destruct (String.eqb_spec k k'); [contradiction | auto].
Qed.

(** ** The resolution engine *)

Section Engine.
Context {os : OsPath}.

Lemma expand_S (n : nat) (t : table) (fl : Z) (tgt : string) :
  expand (S n) t fl tgt =
  if fl =? 0 then ret tgt
  else if has_flag fl USER_FLAG then
    expand n t (Z.lxor fl USER_FLAG) (expanduser tgt)
  else if has_flag fl TAG_FLAG then
    x <- tag_step n t tgt ;; expand n t (Z.lxor fl TAG_FLAG) x
  else if has_flag fl ENV_FLAG then
    expand n t (Z.lxor fl ENV_FLAG) (expandvars tgt)
  else raise (JmpException "Unexpected flag bit set.").
Proof.
  simpl. unfold tag_step.
  destruct (fl =? 0); [reflexivity |].
  destruct (has_flag fl USER_FLAG); [reflexivity |].
  destruct (has_flag fl TAG_FLAG); [| reflexivity].
  destruct (dict_get _ t) as [store |]; [| reflexivity].
  destruct (expand n t (flags store) (target store)) as [[root | e] |];
    reflexivity.
Qed.

Lemma expand_0 (n : nat) (t : table) (tgt : string) :
  expand (S n) t 0 tgt = ret tgt.
Proof. reflexivity. Qed.

(** C3: over a flag set [mask user tag env], one turn of the loop of [expand]
    applies the home step when that flag is set, else the tag step when that
    one is, else the environment step, and goes on with the flag taken out
    of the set; with no flag set the target comes back unchanged.  So the
    whole expansion is the home step, then the tag step on its result, then
    the environment step on that, a failing tag step ending it with its
    exception. *)
Theorem expand_order (n : nat) (t : table) (user tag env : bool)
    (tgt : string) :
  expand (S n) t (mask false false false) tgt = ret tgt
  /\ expand (S n) t (mask true tag env) tgt
     = expand n t (mask false tag env) (expanduser tgt)
  /\ expand (S n) t (mask false true env) tgt
     = (rooted <- tag_step n t tgt ;; expand n t (mask false false env) rooted)
  /\ expand (S n) t (mask false false true) tgt
     = expand n t (mask false false false) (expandvars tgt)
  /\ expand (4 + n) t (mask user tag env) tgt =
       (let homed := if user then expanduser tgt else tgt in
        rooted <- (if tag then tag_step (if user then 2 + n else 3 + n) t homed
                   else ret homed) ;;
        ret (if env then expandvars rooted else rooted)).
Proof.
  split; [reflexivity |].
  split; [destruct tag, env; rewrite expand_S; reflexivity |].
  split; [destruct env; rewrite expand_S; reflexivity |].
  split; [rewrite expand_S; reflexivity |].
  change (4 + n)%nat with (S (S (S (S n)))).
  change (3 + n)%nat with (S (S (S n))).
  change (2 + n)%nat with (S (S n)).
  destruct user, tag, env; cbn [mask];
    repeat (rewrite expand_S; cbn -[expand tag_step expanduser expandvars]);
    try reflexivity;
    match goal with
    | |- context [tag_step ?k t ?x] =>
        destruct (tag_step k t x) as [[r | e] |]; try reflexivity
    end;
    cbn -[expand tag_step expanduser expandvars];
    repeat (rewrite expand_S; cbn -[expand tag_step expanduser expandvars]);
    reflexivity.
Qed.

Lemma get_flags_mask (t : table) (tgt : string) :
  let is_tag := dict_mem (hd EmptyString (split os_sep tgt)) t in
  get_flags t tgt =
    (mask (String.prefix "~" tgt && negb is_tag)%bool is_tag
          (negb (String.eqb tgt (expandvars tgt))), tgt).
Proof.
  unfold get_flags.
  destruct (dict_mem _ t), (String.prefix "~" tgt),
    (String.eqb tgt (expandvars tgt)); reflexivity.
Qed.

Lemma has_flag_mask (user tag env : bool) :
  has_flag (mask user tag env) USER_FLAG = user
  /\ has_flag (mask user tag env) TAG_FLAG = tag
  /\ has_flag (mask user tag env) ENV_FLAG = env.
Proof. destruct user, tag, env; repeat split. Qed.

(** C4, as the code has it: the tag flag is set exactly when the first
    component of the target is a key of the table; the home flag exactly when
    the target begins with [~] and the tag flag is not set, so the two never
    combine; the environment flag exactly when [expandvars] alters the
    target, whatever the other two are. *)
Theorem get_flags_spec (t : table) (tgt : string) :
  let fl := fst (get_flags t tgt) in
  let is_tag := dict_mem (hd EmptyString (split os_sep tgt)) t in
  has_flag fl TAG_FLAG = is_tag
  /\ has_flag fl USER_FLAG = (String.prefix "~" tgt && negb is_tag)%bool
  /\ has_flag fl ENV_FLAG = negb (String.eqb tgt (expandvars tgt))
  /\ (has_flag fl TAG_FLAG && has_flag fl USER_FLAG)%bool = false
  /\ snd (get_flags t tgt) = tgt.
Proof.
  cbv zeta. rewrite get_flags_mask. cbn [fst snd].
  destruct (has_flag_mask
              (String.prefix "~" tgt
               && negb (dict_mem (hd EmptyString (split os_sep tgt)) t))
              (dict_mem (hd EmptyString (split os_sep tgt)) t)
              (negb (String.eqb tgt (expandvars tgt)))) as (Hu & Hg & He).
  rewrite Hu, Hg, He. repeat split.
  destruct (dict_mem _ t); [apply andb_false_r | reflexivity].
Qed.

End Engine.

(** ** The operations *)

Section Service.
Context {os : OsPath}.

(** Without the tag flag an expansion needs no table and three steps at
    most. *)
Lemma expand_without_tag (n : nat) (t : table) (user env : bool)
    (tgt : string) :
  expand (3 + n) t (mask user false env) tgt =
  ret (let homed := if user then expanduser tgt else tgt in
       if env then expandvars homed else homed).
Proof.
  change (3 + n)%nat with (S (S (S n))).
  destruct user, env; cbn [mask];
    repeat (rewrite expand_S; cbn -[expand tag_step expanduser expandvars]);
    reflexivity.
Qed.

(** C10: a jump whose input is not classified as tag-relative ends, in
    success or in failure, with the backend it started from. *)
Theorem jmp_to_without_tag_keeps_store (n : nat) (b : JmpBackend)
    (answer tag : string) :
  has_flag (fst (get_flags (jmp_table b) tag)) TAG_FLAG = false ->
  exists ok out, jmp_to (3 + n) b answer tag = ret (ok, b, out).
Proof.
  intros Hflag.
  pose proof (get_flags_mask (jmp_table b) tag) as Hg. cbv zeta in Hg.
  rewrite Hg in Hflag. cbn [fst] in Hflag.
  rewrite (proj1 (proj2 (has_flag_mask _ _ _))) in Hflag.
  unfold jmp_to. rewrite Hg, Hflag.
  rewrite expand_without_tag, (proj1 (proj2 (has_flag_mask _ _ _))).
  cbn [bind ret andb].
  destruct (negb (isdir _) && _)%bool; eauto.
Qed.

(** When the target expands to [path], [store_jmp] rejects a [path] that is
    no directory, with a message, [False] and the backend untouched; and for
    a directory it stores under [tag] a fresh entry (the flags, the raw
    target, usage 0), every other tag keeping its entry.  When the expansion
    raises, so does [store_jmp]. *)
Theorem store_jmp_validates (fuel : nat) (b : JmpBackend)
    (tag tgt : string) (absolute : bool) (path : string) :
  let fl := fst (get_flags (jmp_table b) tgt) in
  let raw := if ((fl =? 0) && absolute)%bool then abspath tgt else tgt in
  expand fuel (jmp_table b) fl raw = ret path ->
  (isdir path = false ->
   store_jmp fuel b tag tgt absolute =
   ret (false, b, log b (raw ++ " is not a jumpable directory.") false Stdout))
  /\ (isdir path = true ->
      exists b',
        store_jmp fuel b tag tgt absolute =
        ret (true, b', log b ("Added jmp " ++ tag ++ " -> " ++ raw) false Stdout)
        /\ dict_get tag (jmp_table b') = Some (mkJmpStore CURRENT_VERSION fl raw 0)
        /\ forall k, k <> tag ->
             dict_get k (jmp_table b') = dict_get k (jmp_table b)).
Proof.
  intros fl raw Hexp. unfold store_jmp.
  destruct (get_flags (jmp_table b) tgt) as [fl' tgt'] eqn:Hg.
  assert (Htgt : tgt' = tgt) by (unfold get_flags in Hg; congruence).
  subst tgt'. subst fl raw. cbn [fst] in *. rewrite Hexp. cbn [bind ret].
  split; intros Hdir; rewrite Hdir; cbn [negb].
  - reflexivity.
  - eexists. split; [reflexivity |]. cbn [jmp_table with_table]. split.
    + apply dict_get_set_same.
    + intros k Hk. apply dict_get_set_other. exact Hk.
Qed.

(** C5, as the code has it: a successful jump adds one to the usage counter
    of the input itself when the input is classified as tag-relative and is,
    as a whole, a key of the table, and changes nothing else; any other
    successful jump (such as [tag/rest]) changes nothing at all; and after a
    failed jump every entry still in the table is as it was. *)
Theorem jmp_to_usage (fuel : nat) (b b' : JmpBackend) (answer tag : string)
    (ok : bool) (out : output) :
  NoDup (map fst (jmp_table b)) ->
  jmp_to fuel b answer tag = ret (ok, b', out) ->
  let counted := (has_flag (fst (get_flags (jmp_table b) tag)) TAG_FLAG
                  && dict_mem tag (jmp_table b))%bool in
  (ok = true -> counted = true ->
   exists s, dict_get tag (jmp_table b) = Some s
             /\ dict_get tag (jmp_table b') = Some (bump_used s)
             /\ used (bump_used s) = used s + 1
             /\ forall k, k <> tag ->
                  dict_get k (jmp_table b') = dict_get k (jmp_table b))
  /\ (ok = true -> counted = false -> b' = b)
  /\ (ok = false ->
      forall k s, dict_get k (jmp_table b') = Some s ->
                  dict_get k (jmp_table b) = Some s).
Proof.
  intros Hnd Hrun counted. unfold jmp_to in Hrun.
  destruct (get_flags (jmp_table b) tag) as [fl tgt] eqn:Hg.
  cbn [fst] in counted.
  apply bind_some in Hrun.
  destruct Hrun as [(e & _ & He) | (path & _ & Hrun)]; [discriminate |].
  fold counted in Hrun.
  destruct (negb (isdir path) && negb (String.eqb tgt "-"))%bool.
  - (* the jump fails *)
    assert (Hfail : ok = false
                    /\ (b' = b
                        \/ jmp_table b' = dict_remove tag (jmp_table b))).
    { destruct counted.
      - destruct (String.eqb (lower answer) "y").
        + unfold delete_jmp in Hrun.
          destruct (dict_get tag (jmp_table b)); inversion Hrun; subst; auto.
        + inversion Hrun; subst; auto.
      - inversion Hrun; subst; auto. }
    destruct Hfail as [-> Hb']. repeat split; try discriminate.
    intros _ k s Hk. destruct Hb' as [-> | Hb']; [exact Hk |].
    rewrite Hb' in Hk. destruct (String.eqb_spec k tag) as [-> | Hne].
    + rewrite dict_get_remove_same in Hk by exact Hnd. discriminate.
    + rewrite dict_get_remove_other in Hk by exact Hne. exact Hk.
  - (* the jump succeeds *)
    inversion Hrun as [[Hok Hb' Hout]]. clear Hrun.
    repeat split; try discriminate.
    + intros _ Hc. rewrite Hc.
      assert (Hmem : dict_mem tag (jmp_table b) = true)
        by (subst counted; apply andb_true_iff in Hc; tauto).
      unfold dict_mem in Hmem.
      destruct (dict_get tag (jmp_table b)) as [s |]; [| discriminate].
      exists s. cbn [jmp_table with_table]. repeat split.
      * apply dict_get_set_same.
      * intros k Hk. apply dict_get_set_other. exact Hk.
    + intros _ Hc. rewrite Hc. reflexivity.
Qed.

(** The operations keep the keys of the table distinct. *)
Lemma store_jmp_nodup (fuel : nat) (b b' : JmpBackend) (tag tgt : string)
    (absolute ok : bool) (out : output) :
  NoDup (map fst (jmp_table b)) ->
  store_jmp fuel b tag tgt absolute = ret (ok, b', out) ->
  NoDup (map fst (jmp_table b')).
Proof.
  intros Hnd Hrun. unfold store_jmp in Hrun.
  destruct (get_flags (jmp_table b) tgt) as [fl tgt'].
  apply bind_some in Hrun.
  destruct Hrun as [(e & _ & He) | (path & _ & Hrun)]; [discriminate |].
  destruct (negb (isdir path)); inversion Hrun; subst; [exact Hnd |].
  apply dict_set_nodup. exact Hnd.
Qed.

Lemma delete_jmp_nodup (b : JmpBackend) (tag : string) :
  NoDup (map fst (jmp_table b)) ->
  NoDup (map fst (jmp_table (snd (fst (delete_jmp b tag))))).
Proof.
  intros Hnd. unfold delete_jmp.
  destruct (dict_get tag (jmp_table b)); cbn; [| exact Hnd].
  apply dict_remove_nodup. exact Hnd.
Qed.

End Service.

(** ** Listing *)

Section Sorting.
Context {A : Type} (key : A -> Z).

Lemma insert_by_perm (x : A) (l : list A) :
  Permutation (insert_by key x l) (x :: l).
Proof.
  induction l as [| y l IH]; simpl.
  - apply Permutation_refl.
  - destruct (key x <=? key y).
    + apply Permutation_refl.
    + apply perm_trans with (y :: x :: l).
      * apply perm_skip. exact IH.
      * apply perm_swap.
Qed.

Lemma sorted_perm (l : list A) : Permutation (sorted key l) l.
Proof.
  induction l as [| x l IH]; simpl.
  - apply perm_nil.
  - apply perm_trans with (x :: sorted key l).
    + apply insert_by_perm.
    + apply perm_skip. exact IH.
Qed.

Lemma insert_by_sorted (x : A) (l : list A) :
  StronglySorted (fun a b => key a <= key b) l ->
  StronglySorted (fun a b => key a <= key b) (insert_by key x l).
Proof.
  induction l as [| y l IH]; simpl; intros Hs.
  - constructor; constructor.
  - inversion Hs as [| ? ? Hs' Hall]; subst.
    destruct (Z.leb_spec (key x) (key y)) as [Hle | Hlt].
    + constructor; [exact Hs |]. constructor; [exact Hle |].
      eapply Forall_impl; [| exact Hall]. cbn. intros a Ha. lia.
    + constructor; [apply IH; exact Hs' |].
      eapply Permutation_Forall.
      * apply Permutation_sym. apply insert_by_perm.
      * constructor; [lia | exact Hall].
Qed.

Lemma StronglySorted_weaken (R R' : A -> A -> Prop) (l : list A) :
  (forall a b, R a b -> R' a b) -> StronglySorted R l -> StronglySorted R' l.
Proof.
  intros Himp Hs. induction Hs as [| a l Hs IH Hall]; constructor.
  - exact IH.
  - eapply Forall_impl; [| exact Hall]. apply Himp.
Qed.

Lemma sorted_sorted (l : list A) :
  StronglySorted (fun a b => key a <= key b) (sorted key l).
Proof.
  induction l as [| x l IH]; simpl.
  - constructor.
  - apply insert_by_sorted. exact IH.
Qed.

(** Stability: the elements of one key stay in their order. *)
Lemma insert_by_stable (u : Z) (x : A) (l : list A) :
  filter (fun a => key a =? u) (insert_by key x l)
  = filter (fun a => key a =? u) (x :: l).
Proof.
  induction l as [| y l IH]; [reflexivity |].
  cbn [insert_by].
  destruct (Z.leb_spec (key x) (key y)) as [Hle | Hlt]; [reflexivity |].
  cbn [filter] in *. rewrite IH.
  destruct (Z.eqb_spec (key x) u) as [Hx | Hx];
    destruct (Z.eqb_spec (key y) u) as [Hy | Hy]; try reflexivity.
  lia.
Qed.

Lemma sorted_stable (u : Z) (l : list A) :
  filter (fun a => key a =? u) (sorted key l)
  = filter (fun a => key a =? u) l.
Proof.
  induction l as [| x l IH]; [reflexivity |].
  cbn [sorted]. rewrite insert_by_stable. cbn [filter]. rewrite IH.
  reflexivity.
Qed.

End Sorting.

(** C6, as the code has it: [print_list] prints the header, then the line
    [empty] when the table is empty, then one line per entry: all the entries,
    by descending usage count, those of equal count in the order the table
    holds them (the order in which the tags were first stored). *)
Theorem print_list_order (b : JmpBackend) :
  exists listing : list (string * JmpStore),
    print_list b =
      (log b "jmp_table:" false Stdout
       ++ (if Nat.eqb (List.length (jmp_table b)) 0
           then log b "  empty" false Stdout else [])
       ++ flat_map (fun j => log b (list_line j) false Stdout) listing)%list
    /\ Permutation listing (jmp_table b)
    /\ StronglySorted (fun x y => used (snd y) <= used (snd x)) listing
    /\ (forall u,
          filter (fun j => used (snd j) =? u) listing
          = filter (fun j => used (snd j) =? u) (jmp_table b))
    /\ print_list (with_table b []) =
         (log b "jmp_table:" false Stdout ++ log b "  empty" false Stdout)%list.
Proof.
  exists (sorted list_key (jmp_table b)). repeat split.
  - unfold print_list. destruct (jmp_table b); reflexivity.
  - apply sorted_perm.
  - eapply StronglySorted_weaken; [| apply (sorted_sorted list_key)].
    unfold list_key. cbn. intros x y H. lia.
  - intros u.
    rewrite (filter_ext (fun j => used (snd j) =? u)
                        (fun j => list_key j =? - u)).
    + rewrite sorted_stable. apply filter_ext.
      intros j. unfold list_key.
      destruct (Z.eqb_spec (- used (snd j)) (- u));
        destruct (Z.eqb_spec (used (snd j)) u); try reflexivity; lia.
    + intros j. unfold list_key.
      destruct (Z.eqb_spec (- used (snd j)) (- u));
        destruct (Z.eqb_spec (used (snd j)) u); try reflexivity; lia.
  - unfold print_list, log. cbn. rewrite app_nil_r. reflexivity.
Qed.

(** ** Persistence *)

Section Persistence.
Context {pk : Pickle}.

(** C8, as the code has it: with no store file the table stays as it is,
    empty in a new session; a file on which [pickle.load] raises [EOFError]
    gives an empty table and prints what a good load prints, the debug line
    and no diagnostic; any other exception of [pickle.load] leaves
    [load_table]. *)
Theorem load_table_outcomes (b : JmpBackend) :
  load_table b None = Returns (b, debug b "Successfully loaded jmp table.")
  /\ load_table JmpBackend_init None = Returns (JmpBackend_init, [])
  /\ (forall data, pickle_load data = Raises EOFError ->
        load_table b (Some data)
        = Returns (with_table b [], debug b "Successfully loaded jmp table."))
  /\ (forall data t, pickle_load data = Returns t ->
        load_table b (Some data)
        = Returns (with_table b t, debug b "Successfully loaded jmp table."))
  /\ (forall data e, pickle_load data = Raises e -> e <> EOFError ->
        load_table b (Some data) = Raises e).
Proof.
  repeat split.
  - intros data H. unfold load_table. rewrite H. reflexivity.
  - intros data t H. unfold load_table. rewrite H. reflexivity.
  - intros data e H Hne. unfold load_table. rewrite H.
    destruct e; try reflexivity. contradiction.
Qed.

(** C9: what [save_table] writes, a new session's [load_table] reads back as
    the same table: the same tags in the same order, each with its target,
    flags and usage count, given that [pickle.load] inverts [pickle.dump]. *)
Theorem save_load_roundtrip (b : JmpBackend) :
  (forall t, pickle_load (pickle_dump t) = Returns t) ->
  exists b' out,
    load_table JmpBackend_init (fst (save_table b)) = Returns (b', out)
    /\ jmp_table b' = jmp_table b
    /\ map fst (jmp_table b') = map fst (jmp_table b)
    /\ forall tag, dict_get tag (jmp_table b') = dict_get tag (jmp_table b).
Proof.
  intros Hpickle. unfold save_table, load_table. cbn [fst].
  rewrite Hpickle. eexists. eexists. split; [reflexivity |].
  cbn [jmp_table with_table]. repeat split.
Qed.

End Persistence.

(** ** The expansion and the recursion limit *)

Section Limited.
Context {os : OsPath}.
Variable t : table.

(** More fuel never changes the result of a run that ended. *)
Lemma expand_mono (n : nat) :
  forall fl tgt r, expand n t fl tgt = Some r -> expand (S n) t fl tgt = Some r.
Proof.
  induction n as [| n IH]; intros fl tgt r H; [discriminate |].
  rewrite expand_S in H. rewrite expand_S.
  destruct (fl =? 0); [exact H |].
  destruct (has_flag fl USER_FLAG); [apply IH; exact H |].
  destruct (has_flag fl TAG_FLAG).
  - unfold tag_step in *.
    destruct (dict_get _ t) as [store |]; [| exact H].
    destruct (expand n t (flags store) (target store)) as [[root | e] |] eqn:E;
      [| | discriminate].
    + rewrite (IH _ _ _ E). cbn [bind ret] in *. apply IH. exact H.
    + rewrite (IH _ _ _ E). exact H.
  - destruct (has_flag fl ENV_FLAG); [apply IH; exact H | exact H].
Qed.

Lemma expand_mono_le (n m : nat) (fl : Z) (tgt : string) (r : result string) :
  (n <= m)%nat -> expand n t fl tgt = Some r -> expand m t fl tgt = Some r.
Proof.
  intros Hle H. induction Hle as [| m Hle IH]; [exact H |].
  apply expand_mono. exact IH.
Qed.

Lemma known_count_lxor_user (fl : Z) :
  has_flag fl USER_FLAG = true ->
  S (known_count (Z.lxor fl USER_FLAG)) = known_count fl.
Proof.
  intros H. unfold known_count.
  rewrite (has_flag_lxor_other fl USER_FLAG TAG_FLAG) by reflexivity.
  rewrite (has_flag_lxor_other fl USER_FLAG ENV_FLAG) by reflexivity.
  rewrite H. rewrite USER_FLAG_pow in *.
  rewrite (has_flag_lxor_same fl 0) by (try lia; exact H). reflexivity.
Qed.

Lemma known_count_lxor_tag (fl : Z) :
  has_flag fl TAG_FLAG = true ->
  S (known_count (Z.lxor fl TAG_FLAG)) = known_count fl.
Proof.
  intros H. unfold known_count.
  rewrite (has_flag_lxor_other fl TAG_FLAG USER_FLAG) by reflexivity.
  rewrite (has_flag_lxor_other fl TAG_FLAG ENV_FLAG) by reflexivity.
  rewrite H. rewrite TAG_FLAG_pow in *.
  rewrite (has_flag_lxor_same fl 1) by (try lia; exact H).
  cbn [Nat.b2n]. lia.
Qed.

Lemma known_count_lxor_env (fl : Z) :
  has_flag fl ENV_FLAG = true ->
  S (known_count (Z.lxor fl ENV_FLAG)) = known_count fl.
Proof.
  intros H. unfold known_count.
  rewrite (has_flag_lxor_other fl ENV_FLAG USER_FLAG) by reflexivity.
  rewrite (has_flag_lxor_other fl ENV_FLAG TAG_FLAG) by reflexivity.
  rewrite H. rewrite ENV_FLAG_pow in *.
  rewrite (has_flag_lxor_same fl 2) by (try lia; exact H).
  cbn [Nat.b2n]. lia.
Qed.

Lemma known_count_le_3 (fl : Z) : (known_count fl <= 3)%nat.
Proof.
  unfold known_count.
  destruct (has_flag fl USER_FLAG), (has_flag fl TAG_FLAG),
    (has_flag fl ENV_FLAG); cbn; lia.
Qed.

(** A turn more than the set flags need changes nothing: the loop never
    uses up the four turns it is given. *)
Lemma expand_loop_turns (call : Z -> string -> limited string) (n : nat) :
  forall fl tgt,
    (known_count fl < n)%nat ->
    expand_loop call (S n) t fl tgt = expand_loop call n t fl tgt.
Proof.
  induction n as [| n IH]; intros fl tgt Hn; [lia |].
  cbn [expand_loop].
  destruct (fl =? 0); [reflexivity |].
  destruct (has_flag fl USER_FLAG) eqn:Hu.
  { apply IH. pose proof (known_count_lxor_user fl Hu). lia. }
  destruct (has_flag fl TAG_FLAG) eqn:Hg.
  { destruct (dict_get _ t) as [s |]; [| reflexivity].
    destruct (call (flags s) (target s)); try reflexivity.
    apply IH. pose proof (known_count_lxor_tag fl Hg). lia. }
  destruct (has_flag fl ENV_FLAG) eqn:He; [| reflexivity].
  apply IH. pose proof (known_count_lxor_env fl He). lia.
Qed.

Lemma expand_loop_four (call : Z -> string -> limited string) (k : nat)
    (fl : Z) (tgt : string) :
  expand_loop call (4 + k) t fl tgt = expand_loop call 4 t fl tgt.
Proof.
  induction k as [| k IH]; [reflexivity |].
  replace (4 + S k)%nat with (S (4 + k)) by lia.
  rewrite expand_loop_turns; [exact IH |].
  pose proof (known_count_le_3 fl). lia.
Qed.

(** Without the home and the tag flag the loop makes no call. *)
Lemma expand_loop_no_call (call : Z -> string -> limited string) (n : nat) :
  forall fl tgt,
    has_flag fl USER_FLAG = false -> has_flag fl TAG_FLAG = false ->
    expand_loop call n t fl tgt <> RecursionError
    /\ expand_outcome (expand_loop call n t fl tgt).
Proof.
  induction n as [| n IH]; intros fl tgt Hu Hg; cbn [expand_loop].
  - split; [discriminate | reflexivity].
  - destruct (fl =? 0); [split; [discriminate | exact I] |].
    rewrite Hu, Hg.
    destruct (has_flag fl ENV_FLAG); [| split; [discriminate | reflexivity]].
    apply IH; rewrite has_flag_lxor_other by reflexivity; assumption.
Qed.

(** The one call a loop makes, seen from a loop past its home step. *)
Lemma expand_loop_tag (call : Z -> string -> limited string) (n : nat)
    (fl : Z) (tgt : string) :
  has_flag fl USER_FLAG = false ->
  (expand_loop call n t fl tgt = RecursionError ->
   has_flag fl TAG_FLAG = true
   /\ exists s, dict_get (hd EmptyString (split os_sep tgt)) t = Some s
                /\ call (flags s) (target s) = RecursionError)
  /\ ((forall s, dict_get (hd EmptyString (split os_sep tgt)) t = Some s ->
                 expand_outcome (call (flags s) (target s))) ->
      expand_outcome (expand_loop call n t fl tgt))
  /\ (forall s, has_flag fl TAG_FLAG = true ->
                dict_get (hd EmptyString (split os_sep tgt)) t = Some s ->
                call (flags s) (target s) = RecursionError ->
                (0 < n)%nat ->
                expand_loop call n t fl tgt = RecursionError).
Proof.
  intros Hu.
  destruct (has_flag fl TAG_FLAG) eqn:Hg.
  - assert (Hnz : (fl =? 0) = false).
    { destruct (Z.eqb_spec fl 0) as [-> | _]; [| reflexivity].
      rewrite has_flag_0 in Hg. discriminate. }
    destruct n as [| n]; cbn [expand_loop].
    { split; [discriminate |]. split; [reflexivity | lia]. }
    rewrite Hnz, Hu, Hg.
    assert (Hrest : forall x,
               expand_loop call n t (Z.lxor fl TAG_FLAG) x <> RecursionError
               /\ expand_outcome (expand_loop call n t (Z.lxor fl TAG_FLAG) x)).
    { intros x. apply expand_loop_no_call.
      - rewrite has_flag_lxor_other by reflexivity. exact Hu.
      - rewrite TAG_FLAG_pow in *. apply has_flag_lxor_same; [lia | exact Hg]. }
    destruct (dict_get (hd EmptyString (split os_sep tgt)) t) as [s |].
    + destruct (call (flags s) (target s)) as [root | e |] eqn:Hcall.
      * split; [intros H; exfalso; exact (proj1 (Hrest _) H) |].
        split; [intros _; apply Hrest |].
        intros s' _ Hs' Hrec _. injection Hs' as <-. congruence.
      * split; [discriminate |].
        split; [| intros s' _ Hs' Hrec _; injection Hs' as <-; congruence].
        intros H. specialize (H s eq_refl). rewrite Hcall in H. exact H.
      * split; [intros _; split; [reflexivity |]; exists s; auto |].
        split; [intros _; exact I | reflexivity].
    + split; [discriminate |]. split; [intros _; exact I | discriminate].
  - destruct (expand_loop_no_call call n fl tgt Hu Hg) as [Hno Hout].
    split; [intros H; exfalso; exact (Hno H) |].
    split; [intros _; exact Hout | discriminate].
Qed.

(** The same, seen from the start of the loop. *)
Lemma expand_loop_call (call : Z -> string -> limited string) (n : nat)
    (fl : Z) (tgt : string) :
  let seen := if has_flag fl USER_FLAG then expanduser tgt else tgt in
  (expand_loop call n t fl tgt = RecursionError ->
   has_flag fl TAG_FLAG = true
   /\ exists s, dict_get (hd EmptyString (split os_sep seen)) t = Some s
                /\ call (flags s) (target s) = RecursionError)
  /\ ((forall s, dict_get (hd EmptyString (split os_sep seen)) t = Some s ->
                 expand_outcome (call (flags s) (target s))) ->
      expand_outcome (expand_loop call n t fl tgt))
  /\ (forall s, has_flag fl TAG_FLAG = true ->
                dict_get (hd EmptyString (split os_sep seen)) t = Some s ->
                call (flags s) (target s) = RecursionError ->
                (1 < n)%nat ->
                expand_loop call n t fl tgt = RecursionError).
Proof.
  cbv zeta. destruct (has_flag fl USER_FLAG) eqn:Hu.
  - assert (Hnz : (fl =? 0) = false).
    { destruct (Z.eqb_spec fl 0) as [-> | _]; [| reflexivity].
      rewrite has_flag_0 in Hu. discriminate. }
    assert (Hu' : has_flag (Z.lxor fl USER_FLAG) USER_FLAG = false).
    { rewrite USER_FLAG_pow in *. apply has_flag_lxor_same; [lia | exact Hu]. }
    assert (Hg' : has_flag (Z.lxor fl USER_FLAG) TAG_FLAG
                  = has_flag fl TAG_FLAG)
      by (apply has_flag_lxor_other; reflexivity).
    destruct n as [| n]; cbn [expand_loop].
    { split; [discriminate |]. split; [reflexivity | lia]. }
    rewrite Hnz, Hu.
    destruct (expand_loop_tag call n (Z.lxor fl USER_FLAG) (expanduser tgt) Hu')
      as (H1 & H2 & H3).
    rewrite Hg' in *. split; [exact H1 |]. split; [exact H2 |].
    intros s Hg Hs Hrec Hn. apply (H3 s Hg Hs Hrec). lia.
  - destruct (expand_loop_tag call n fl tgt Hu) as (H1 & H2 & H3).
    split; [exact H1 |]. split; [exact H2 |].
    intros s Hg Hs Hrec Hn. apply (H3 s Hg Hs Hrec). lia.
Qed.

(** Whatever the limit, the outcome is one [expand] can have. *)
Lemma expand_limited_outcome (frames : nat) :
  forall fl tgt, expand_outcome (expand_limited frames t fl tgt).
Proof.
  induction frames as [| frames IH]; intros fl tgt; [exact I |].
  cbn [expand_limited].
  apply (expand_loop_call (expand_limited frames t) 4 fl tgt).
  intros s _. apply IH.
Qed.

Section Acyclic.
Variable rank : string -> nat.
Hypothesis Hacyclic : acyclic_by rank t = true.

Lemma entry_within (frames : nat) :
  forall k s,
    dict_get k t = Some s -> (rank k < frames)%nat ->
    expand_limited frames t (flags s) (target s) <> RecursionError.
Proof.
  induction frames as [| frames IH]; intros k s Hget Hr; [lia |].
  cbn [expand_limited]. intros Hrec.
  apply (expand_loop_call (expand_limited frames t) 4) in Hrec.
  destruct Hrec as (Hg & s' & Hget' & Hrec).
  pose proof (proj1 (forallb_forall _ _) Hacyclic _ (dict_get_In _ _ _ Hget))
    as Hk.
  cbn [fst snd] in Hk. unfold tag_ref in Hk. rewrite Hg in Hk.
  unfold dict_mem in Hk. rewrite Hget' in Hk. apply Nat.ltb_lt in Hk.
  apply (IH _ s' Hget'); [lia | exact Hrec].
Qed.

Lemma expand_limited_within (frames : nat) (fl : Z) (tgt : string) :
  within_limit rank frames t = true ->
  expand_limited frames t fl tgt <> RecursionError.
Proof.
  unfold within_limit. intros Hin Hrec.
  apply andb_true_iff in Hin. destruct Hin as [Hpos Hin].
  destruct frames as [| frames]; [discriminate |].
  cbn [expand_limited] in Hrec.
  apply (expand_loop_call (expand_limited frames t) 4) in Hrec.
  destruct Hrec as (_ & s & Hget & Hrec).
  pose proof (proj1 (forallb_forall _ _) Hin _ (dict_get_In _ _ _ Hget))
    as Hk.
  cbn [fst] in Hk. apply Nat.ltb_lt in Hk.
  apply (entry_within frames _ s Hget); [lia | exact Hrec].
Qed.

End Acyclic.

Section Cycle.
Variable cycle : list string.
Hypothesis Hclosed : closed_cycle cycle t = true.

Lemma cycle_next (k : string) :
  In k cycle ->
  exists s h, dict_get k t = Some s /\ tag_ref s = Some h /\ In h cycle.
Proof.
  intros Hk.
  pose proof (proj1 (forallb_forall _ _) Hclosed k Hk) as H. cbn beta in H.
  destruct (dict_get k t) as [s |]; [| discriminate].
  destruct (tag_ref s) as [h |] eqn:Href; [| discriminate].
  apply existsb_exists in H. destruct H as (h' & Hin & Heq).
  apply String.eqb_eq in Heq. subst h'. exists s, h.
  split; [reflexivity | split; [exact Href | exact Hin]].
Qed.

Lemma cycle_entry_hits (frames : nat) :
  forall k s,
    In k cycle -> dict_get k t = Some s ->
    expand_limited frames t (flags s) (target s) = RecursionError.
Proof.
  induction frames as [| frames IH]; intros k s Hk Hget; [reflexivity |].
  destruct (cycle_next k Hk) as (s0 & h & Hget0 & Href & Hh).
  rewrite Hget in Hget0. injection Hget0 as <-.
  destruct (cycle_next h Hh) as (s' & h' & Hget' & _ & _).
  unfold tag_ref in Href.
  destruct (has_flag (flags s) TAG_FLAG) eqn:Hg; [| discriminate].
  injection Href as Href. cbn [expand_limited].
  apply (expand_loop_call (expand_limited frames t) 4 (flags s) (target s))
    with (s := s').
  - exact Hg.
  - rewrite Href. exact Hget'.
  - apply (IH h s' Hh Hget').
  - lia.
Qed.

Lemma expand_limited_cycle (frames : nat) (fl : Z) (tgt : string) :
  has_flag fl TAG_FLAG = true ->
  In (hd EmptyString
        (split os_sep (if has_flag fl USER_FLAG then expanduser tgt else tgt)))
     cycle ->
  expand_limited frames t fl tgt = RecursionError.
Proof.
  intros Hg Hin. destruct frames as [| frames]; [reflexivity |].
  destruct (cycle_next _ Hin) as (s & h & Hget & _ & _).
  cbn [expand_limited].
  apply (expand_loop_call (expand_limited frames t) 4 fl tgt) with (s := s).
  - exact Hg.
  - exact Hget.
  - apply (cycle_entry_hits frames _ s Hin Hget).
  - lia.
Qed.

End Cycle.

(** Below the limit, the loop gives what the expansion with fuel gives. *)
Lemma expand_loop_unlimited (call : Z -> string -> limited string) :
  (forall fl tgt r, call fl tgt = unlimited r ->
                    exists fuel, expand fuel t fl tgt = Some r) ->
  forall n fl tgt r,
    (known_count fl < n)%nat ->
    expand_loop call n t fl tgt = unlimited r ->
    exists fuel, expand fuel t fl tgt = Some r.
Proof.
  intros Hcall. induction n as [| n IH]; intros fl tgt r Hn H; [lia |].
  cbn [expand_loop] in H.
  destruct (fl =? 0) eqn:Hz.
  { exists 1%nat. rewrite expand_S, Hz. destruct r; inversion H. reflexivity. }
  destruct (has_flag fl USER_FLAG) eqn:Hu.
  { apply IH in H; [| pose proof (known_count_lxor_user fl Hu); lia].
    destruct H as (fuel & H). exists (S fuel). rewrite expand_S, Hz, Hu.
    exact H. }
  destruct (has_flag fl TAG_FLAG) eqn:Hg.
  { destruct (dict_get (hd EmptyString (split os_sep tgt)) t) as [s |] eqn:Hget.
    - destruct (call (flags s) (target s)) as [root | e |] eqn:Hc;
        [| | destruct r; discriminate].
      + destruct (Hcall _ _ (Returns root) Hc) as (f1 & H1).
        apply IH in H; [| pose proof (known_count_lxor_tag fl Hg); lia].
        destruct H as (f2 & H2). exists (S (Nat.max f1 f2)).
        rewrite expand_S, Hz, Hu, Hg. unfold tag_step. rewrite Hget.
        rewrite (expand_mono_le f1 _ _ _ _ (Nat.le_max_l f1 f2) H1).
        cbn [bind ret].
        apply (expand_mono_le f2 _ _ _ _ (Nat.le_max_r f1 f2) H2).
      + destruct (Hcall _ _ (Raises e) Hc) as (f1 & H1).
        exists (S f1). rewrite expand_S, Hz, Hu, Hg. unfold tag_step.
        rewrite Hget, H1. destruct r; inversion H. reflexivity.
    - exists 1%nat. rewrite expand_S, Hz, Hu, Hg. unfold tag_step.
      rewrite Hget. destruct r; inversion H. reflexivity. }
  destruct (has_flag fl ENV_FLAG) eqn:He.
  { apply IH in H; [| pose proof (known_count_lxor_env fl He); lia].
    destruct H as (fuel & H). exists (S fuel).
    rewrite expand_S, Hz, Hu, Hg, He. exact H. }
  exists 1%nat. rewrite expand_S, Hz, Hu, Hg, He.
  destruct r; inversion H. reflexivity.
Qed.

Lemma expand_limited_unlimited (frames : nat) :
  forall fl tgt r,
    expand_limited frames t fl tgt = unlimited r ->
    exists fuel, expand fuel t fl tgt = Some r.
Proof.
  induction frames as [| frames IH]; intros fl tgt r H.
  - destruct r; discriminate.
  - cbn [expand_limited] in H.
    apply (expand_loop_unlimited (expand_limited frames t) IH 4 fl tgt r);
      [| exact H].
    pose proof (known_count_le_3 fl). lia.
Qed.

End Limited.

(** C2, as the code has it: every expansion ends, since the interpreter
    bounds the recursion and [expand] itself does not.  It ends in a path,
    in [KeyError], in the [JmpException] of an unknown flag bit or in the
    interpreter's [RecursionError].  On a table whose tag references go down
    a rank and fit under the limit it does not end in [RecursionError], and
    whatever it gives below the limit is what the expansion with fuel gives;
    through a tag that comes back to itself, directly or by way of other
    tags, it ends in [RecursionError] whatever the limit, and in no
    resolution error of its own. *)
Theorem expand_limited_outcomes {os : OsPath} (t : table) (fl : Z)
    (tgt : string) :
  (forall frames, expand_outcome (expand_limited frames t fl tgt))
  /\ (forall rank frames,
        acyclic_by rank t = true -> within_limit rank frames t = true ->
        exists r, expand_limited frames t fl tgt = unlimited r)
  /\ (forall frames r,
        expand_limited frames t fl tgt = unlimited r ->
        exists fuel, expand fuel t fl tgt = Some r)
  /\ (forall cycle frames,
        closed_cycle cycle t = true ->
        has_flag fl TAG_FLAG = true ->
        In (hd EmptyString
              (split os_sep
                 (if has_flag fl USER_FLAG then expanduser tgt else tgt)))
           cycle ->
        expand_limited frames t fl tgt = RecursionError).
Proof.
  split; [intros frames; apply expand_limited_outcome |].
  split; [| split].
  - intros rank frames Hacyclic Hin.
    pose proof (expand_limited_within t rank Hacyclic frames fl tgt Hin) as H.
    destruct (expand_limited frames t fl tgt) as [p | e |].
    + exists (Returns p). reflexivity.
    + exists (Raises e). reflexivity.
    + contradiction.
  - intros frames r. apply expand_limited_unlimited.
  - intros cycle frames Hclosed. apply expand_limited_cycle. exact Hclosed.
Qed.

(** ** The claims at concrete inputs *)

(** The tables of [Demo] are what the commands named there leave. *)
Lemma demo_tables_reached :
  (r1 <- store_jmp (os := Demo.os) 4 JmpBackend_init "a" "/tmp" true ;;
   r2 <- store_jmp (os := Demo.os) 4 (snd (fst r1)) "b" "a/sub" true ;;
   ret (snd (fst r2), snd (fst (delete_jmp (snd (fst r2)) "a"))))
  = ret (Demo.backend Demo.chain, Demo.backend Demo.dangling)
  /\ (r1 <- store_jmp (os := Demo.os) 4 JmpBackend_init "a" "/tmp" true ;;
      r2 <- store_jmp (os := Demo.os) 4 (snd (fst r1)) "a" "a" true ;;
      ret (snd (fst r2)))
     = ret (Demo.backend Demo.selfref)
  /\ (r1 <- store_jmp (os := Demo.os) 4 JmpBackend_init "~" "/tmp" true ;;
      ret (snd (fst r1)))
     = ret (Demo.backend Demo.tilde)
  /\ (r1 <- store_jmp (os := Demo.os) 4 JmpBackend_init "b" "/tmp" true ;;
      r2 <- store_jmp (os := Demo.os) 4 (snd (fst r1)) "a" "/tmp" true ;;
      ret (snd (fst r2)))
     = ret (Demo.backend Demo.ties).
Proof. repeat split. Qed.

(** C1 fails on the code: once [a] is deleted, jumping to or expanding [b],
    stored as [a/sub], raises [KeyError] out of [jmp_to] and [expand]; nothing
    is printed and no [False] is returned. *)
Theorem jmp_to_dangling_tag_raises (n : nat) (answer : string) :
  jmp_to (os := Demo.os) (2 + n) (Demo.backend Demo.dangling) answer "b"
  = raise (KeyError "a")
  /\ (let (fl, tgt) := get_flags (os := Demo.os) Demo.dangling "b" in
      expand (os := Demo.os) (2 + n) Demo.dangling fl tgt)
     = raise (KeyError "a").
Proof. split; reflexivity. Qed.

(** C2 fails on the code: after [jmp a /tmp] and [jmp a a] the tag [a]
    refers to itself, and whatever the recursion limit its expansion runs
    into it: what comes out of [expand] is the interpreter's
    [RecursionError], no resolution error. *)
Lemma expand_selfref_hits_limit :
  get_flags (os := Demo.os) Demo.selfref "a" = (TAG_FLAG, "a")
  /\ hits_limit (os := Demo.os) Demo.selfref TAG_FLAG "a".
Proof.
  split; [reflexivity |].
  assert (H : forall frames,
             expand_limited (os := Demo.os) frames Demo.selfref 2 "a"
             = RecursionError).
  { induction frames as [| frames IH]; [reflexivity |].
    cbn [expand_limited]. cbn -[expand_limited]. rewrite IH. reflexivity. }
  exact H.
Qed.

(** The chain [b -> a/sub], [a -> /tmp] is acyclic and fits in three calls,
    and expanding [b] gives its path; [x] and [y], stored as each other, are
    a closed cycle, and expanding [x] under a limit of a thousand calls runs
    into it. *)
Lemma expand_limited_outcomes_witness :
  (acyclic_by (os := Demo.os) Demo.chain_rank Demo.chain = true
   /\ within_limit Demo.chain_rank 3 Demo.chain = true
   /\ expand_limited (os := Demo.os) 3 Demo.chain TAG_FLAG "b"
      = Value "/tmp/sub"
   /\ exists fuel,
        expand (os := Demo.os) fuel Demo.chain TAG_FLAG "b" = ret "/tmp/sub")
  /\ (closed_cycle (os := Demo.os) ["x"; "y"] Demo.mutual = true
      /\ expand_limited (os := Demo.os) 1000 Demo.mutual TAG_FLAG "x/docs"
         = RecursionError).
Proof.
  destruct (expand_limited_outcomes (os := Demo.os) Demo.chain TAG_FLAG "b")
    as (_ & _ & Hfuel & _).
  destruct (expand_limited_outcomes (os := Demo.os) Demo.mutual TAG_FLAG
              "x/docs") as (_ & _ & _ & Hcycle).
  split.
  - split; [reflexivity |]. split; [reflexivity |]. split; [reflexivity |].
    apply (Hfuel 3%nat (Returns "/tmp/sub")). reflexivity.
  - split; [reflexivity |].
    apply (Hcycle ["x"; "y"] 1000%nat eq_refl eq_refl).
    left. reflexivity.
Defined.

(** C7 fails on the code: on the table that [jmp a /tmp], [jmp b a/sub] and
    [jmp -d a] leave, storing [c] as [b/x] validates nothing: the expansion
    of [b/x] raises [KeyError] out of [store_jmp], so that no message is
    printed and no [False] is returned. *)
Theorem store_jmp_dangling_raises (n : nat) (absolute : bool) :
  get_flags (os := Demo.os) Demo.dangling "b/x" = (TAG_FLAG, "b/x")
  /\ store_jmp (os := Demo.os) (2 + n) (Demo.backend Demo.dangling) "c" "b/x"
       absolute
     = raise (KeyError "a").
Proof. split; reflexivity. Qed.

(** The table of [Demo] with two tags that refer to each other is what the
    commands named there leave. *)
Lemma demo_mutual_reached :
  (r1 <- store_jmp (os := Demo.os) 4 JmpBackend_init "x" "/tmp" true ;;
   r2 <- store_jmp (os := Demo.os) 4 (snd (fst r1)) "y" "x" true ;;
   r3 <- store_jmp (os := Demo.os) 4 (snd (fst r2)) "x" "y" true ;;
   ret (snd (fst r3)))
  = ret (Demo.backend Demo.mutual).
Proof. reflexivity. Qed.

(** C4 fails on the code: with a tag named [~] in the table, the target [~/x]
    begins with the home marker and is classified as tag-relative only. *)
Lemma get_flags_tilde_tag :
  String.prefix "~" "~/x" = true
  /\ get_flags (os := Demo.os) Demo.tilde "~/x" = (TAG_FLAG, "~/x")
  /\ has_flag (fst (get_flags (os := Demo.os) Demo.tilde "~/x")) USER_FLAG
     = false.
Proof. repeat split. Qed.

(** C5 fails on the code: the jump to [a/sub] succeeds through the tag [a],
    and the counter of [a] is what it was. *)
Lemma jmp_to_tag_relative_not_counted :
  dict_mem "a" Demo.chain = true
  /\ jmp_to (os := Demo.os) 4 (Demo.backend Demo.chain) "" "a/sub"
     = ret (true, Demo.backend Demo.chain, [(Stdout, "bash: /tmp/sub")]).
Proof. split; reflexivity. Qed.

(** Jumping to the tag [b] itself counts one use of [b]. *)
Lemma jmp_to_usage_witness :
  NoDup (map fst Demo.chain)
  /\ jmp_to (os := Demo.os) 4 (Demo.backend Demo.chain) "" "b"
     = ret (true,
            Demo.backend
              [("a", mkJmpStore 5 0 "/tmp" 0); ("b", mkJmpStore 5 2 "a/sub" 1)],
            [(Stdout, "bash: /tmp/sub")])
  /\ exists s, dict_get "b" Demo.chain = Some s
               /\ used (bump_used s) = used s + 1.
Proof.
  assert (Hnd : NoDup (map fst Demo.chain)).
  { repeat constructor; cbn; intuition discriminate. }
  split; [exact Hnd |]. split; [reflexivity |].
  destruct (jmp_to_usage (os := Demo.os) 4 (Demo.backend Demo.chain) _ "" "b"
              true _ Hnd eq_refl) as (Hcount & _).
  destruct (Hcount eq_refl eq_refl) as (s & Hs & _ & Hused & _).
  exists s. split; assumption.
Defined.

(** C6 fails on the code: of two tags with the same count, [b] stored before
    [a], [b] is listed first. *)
Lemma print_list_ties_in_table_order :
  print_list (Demo.backend Demo.ties)
  = [(Stdout, "jmp_table:"); (Stdout, "  b (0) -> /tmp");
     (Stdout, "  a (0) -> /tmp")].
Proof. reflexivity. Qed.

(** Storing [/tmp], a directory, and [/nowhere], which is none. *)
Lemma store_jmp_validates_witness :
  expand (os := Demo.os) 4 [] 0 "/tmp" = ret "/tmp"
  /\ (exists b',
        store_jmp (os := Demo.os) 4 JmpBackend_init "a" "/tmp" true
        = ret (true, b', [(Stdout, "Added jmp a -> /tmp")])
        /\ dict_get "a" (jmp_table b') = Some (mkJmpStore 5 0 "/tmp" 0))
  /\ store_jmp (os := Demo.os) 4 JmpBackend_init "a" "/nowhere" true
     = ret (false, JmpBackend_init,
            [(Stdout, "/nowhere is not a jumpable directory.")]).
Proof.
  split; [reflexivity |]. split.
  - destruct (proj2 (store_jmp_validates (os := Demo.os) 4 JmpBackend_init
                       "a" "/tmp" true "/tmp" eq_refl) eq_refl)
      as (b' & Hrun & Hget & _).
    exists b'. split; [exact Hrun | exact Hget].
  - apply (proj1 (store_jmp_validates (os := Demo.os) 4 JmpBackend_init
                    "a" "/nowhere" true "/nowhere" eq_refl) eq_refl).
Defined.

(** C8 fails on the code: a store file that is no pickle makes [load_table]
    raise, and an empty one is read as an empty table with nothing printed. *)
Lemma load_table_corrupt_raises :
  load_table (pk := Demo.pk) JmpBackend_init (Some Demo.Garbage)
  = Raises UnpicklingError
  /\ load_table (pk := Demo.pk) JmpBackend_init (Some Demo.EmptyFile)
     = Returns (JmpBackend_init, []).
Proof. split; reflexivity. Qed.

(** An empty store file and one that is no pickle. *)
Lemma load_table_outcomes_witness :
  pickle_load (Pickle := Demo.pk) Demo.EmptyFile = Raises EOFError
  /\ load_table (pk := Demo.pk) (Demo.backend Demo.chain) (Some Demo.EmptyFile)
     = Returns (Demo.backend [], [])
  /\ load_table (pk := Demo.pk) (Demo.backend Demo.chain) (Some Demo.Garbage)
     = Raises UnpicklingError.
Proof.
  destruct (load_table_outcomes (pk := Demo.pk) (Demo.backend Demo.chain))
    as (_ & _ & Heof & _ & Hother).
  split; [reflexivity |]. split.
  - apply (Heof Demo.EmptyFile). reflexivity.
  - apply (Hother Demo.Garbage UnpicklingError); [reflexivity | discriminate].
Defined.

(** The chain table saved and loaded again. *)
Lemma save_load_roundtrip_witness :
  (forall t, pickle_load (Pickle := Demo.pk) (pickle_dump t) = Returns t)
  /\ exists b' out,
       load_table (pk := Demo.pk) JmpBackend_init
         (fst (save_table (pk := Demo.pk) (Demo.backend Demo.chain)))
       = Returns (b', out)
       /\ jmp_table b' = Demo.chain.
Proof.
  split; [reflexivity |].
  destruct (save_load_roundtrip (pk := Demo.pk) (Demo.backend Demo.chain)
              (fun t => eq_refl)) as (b' & out & Hload & Htable & _).
  exists b', out. split; assumption.
Defined.

(** A failed jump to a home-relative path that is not a tag. *)
Lemma jmp_to_without_tag_keeps_store_witness :
  has_flag (fst (get_flags (os := Demo.os) Demo.chain "~/nowhere")) TAG_FLAG
  = false
  /\ exists ok out,
       jmp_to (os := Demo.os) 3 (Demo.backend Demo.chain) "y" "~/nowhere"
       = ret (ok, Demo.backend Demo.chain, out).
Proof.
  split; [reflexivity |].
  apply (jmp_to_without_tag_keeps_store (os := Demo.os) 0
           (Demo.backend Demo.chain) "y" "~/nowhere").
  reflexivity.
Defined.

(** * Further properties *)

(** ** [upgrade] *)

Lemma upgrade_steps (k : nat) :
  forall s m,
    Z.to_nat (CURRENT_VERSION - version s) = k -> (k < m)%nat ->
    upgrade m s
    = Some (mkJmpStore (Z.max (version s) CURRENT_VERSION)
              (flags s) (target s) (used s)).
Proof.
  unfold CURRENT_VERSION.
  induction k as [| k IH]; intros s m Hk Hm;
    (destruct m as [| m]; [lia |]); cbn [upgrade]; unfold CURRENT_VERSION.
  - destruct (Z.ltb_spec (version s) 5) as [Hlt | Hge]; [lia |].
    destruct s as [v f tg u]. cbn in *. f_equal. f_equal. lia.
  - destruct (Z.ltb_spec (version s) 5) as [Hlt | Hge]; [| lia].
    rewrite IH; cbn [version flags target used]; [| lia | lia].
    f_equal. f_equal. lia.
Qed.

(** X1: [upgrade] ends on every entry, whatever its version: it brings an
    older entry to the current version, leaves a current or newer one at its
    version, and never touches the flags, the target or the usage count. *)
Theorem upgrade_reaches_current (s : JmpStore) :
  exists n, forall m, (n <= m)%nat ->
    upgrade m s
    = Some (mkJmpStore (Z.max (version s) CURRENT_VERSION)
              (flags s) (target s) (used s)).
Proof.
  exists (S (Z.to_nat (CURRENT_VERSION - version s))). intros m Hm.
  apply (upgrade_steps (Z.to_nat (CURRENT_VERSION - version s))); [reflexivity |].
  lia.
Qed.

(** ** Splitting and joining a target *)

Lemma split_nonempty (s : string) : split os_sep s <> [].
Proof.
  destruct s as [| c s]; cbn [split]; [discriminate |].
  destruct (Ascii.eqb c os_sep); [discriminate |].
  destruct (split os_sep s); discriminate.
Qed.

Lemma append_empty_r (s : string) : s ++ "" = s.
Proof. induction s as [| c s IH]; cbn; [| rewrite IH]; reflexivity. Qed.

Lemma substring_all (s : string) : String.substring 0 (String.length s) s = s.
Proof. induction s as [| c s IH]; cbn; [| rewrite IH]; reflexivity. Qed.

Lemma join_cons (root : string) (parts : list string) :
  parts <> [] -> join "/" (root :: parts) = root ++ "/" ++ join "/" parts.
Proof. destruct parts; [contradiction | reflexivity]. Qed.

(** [join] undoes [split]. *)
Lemma join_split (s : string) : join "/" (split os_sep s) = s.
Proof.
  induction s as [| c s IH]; [reflexivity |].
  cbn [split]. destruct (Ascii.eqb_spec c os_sep) as [-> | Hc].
  - rewrite join_cons by apply split_nonempty. rewrite IH. reflexivity.
  - destruct (split os_sep s) as [| h t] eqn:E;
      [exfalso; exact (split_nonempty s E) |].
    destruct t as [| h' t].
    + cbn in *. rewrite IH. reflexivity.
    + rewrite join_cons by discriminate.
      rewrite join_cons in IH by discriminate.
      rewrite <- IH. reflexivity.
Qed.

(** Putting [root] in the place of the first component leaves what follows
    it as it was. *)
Lemma join_rest (root s : string) :
  join "/" (root :: tl (split os_sep s)) = root ++ rest_of s.
Proof.
  unfold rest_of. induction s as [| c s IH].
  - cbn. rewrite append_empty_r. reflexivity.
  - cbn [split]. destruct (Ascii.eqb_spec c os_sep) as [-> | Hc].
    + cbn [hd tl]. change (String.length "") with 0%nat.
      rewrite Nat.sub_0_r, substring_all.
      rewrite join_cons by apply split_nonempty. rewrite join_split.
      reflexivity.
    + destruct (split os_sep s) as [| h t] eqn:E;
        [exfalso; exact (split_nonempty s E) |].
      cbn [hd tl] in *. cbn [String.length String.substring Nat.sub].
      exact IH.
Qed.

Lemma head_rest (s : string) : hd EmptyString (split os_sep s) ++ rest_of s = s.
Proof.
  unfold rest_of. induction s as [| c s IH]; [reflexivity |].
  cbn [split]. destruct (Ascii.eqb_spec c os_sep) as [-> | Hc].
  - cbn [hd]. change (String.length "") with 0%nat.
    rewrite Nat.sub_0_r, substring_all. reflexivity.
  - destruct (split os_sep s) as [| h t] eqn:E;
      [exfalso; exact (split_nonempty s E) |].
    cbn [hd] in *. cbn [String.length String.substring Nat.sub append].
    rewrite IH. reflexivity.
Qed.

(** X2: tag-relative expansion replaces the first component of the target,
    the tag, by the expansion of the tag's entry and keeps everything after
    it, separators included, character for character. *)
Theorem tag_relative_keeps_rest {os : OsPath} (n : nat) (t : table)
    (tgt : string) (s : JmpStore) (root : string) :
  dict_get (hd EmptyString (split os_sep tgt)) t = Some s ->
  expand (S n) t (flags s) (target s) = ret root ->
  expand (S (S n)) t TAG_FLAG tgt = ret (root ++ rest_of tgt)
  /\ tgt = hd EmptyString (split os_sep tgt) ++ rest_of tgt.
Proof.
  intros Hget Hroot. split; [| symmetry; apply head_rest].
  rewrite expand_S.
  change (TAG_FLAG =? 0) with false.
  change (has_flag TAG_FLAG USER_FLAG) with false.
  change (has_flag TAG_FLAG TAG_FLAG) with true.
  cbv iota. unfold tag_step. rewrite Hget, Hroot. cbn [bind ret].
  rewrite join_rest. reflexivity.
Qed.

(** The chain of [Demo]: [a/sub/x] expands to [/tmp] and what follows [a]. *)
Lemma tag_relative_keeps_rest_witness :
  dict_get "a" Demo.chain = Some (mkJmpStore 5 0 "/tmp" 0)
  /\ expand (os := Demo.os) 2 Demo.chain TAG_FLAG "a/sub/x" = ret "/tmp/sub/x".
Proof.
  split; [reflexivity |].
  apply (proj1 (tag_relative_keeps_rest (os := Demo.os) 0 Demo.chain "a/sub/x"
                  (mkJmpStore 5 0 "/tmp" 0) "/tmp" eq_refl eq_refl)).
Defined.

(** ** Flag bits that [expand] does not know *)

Lemma unknown_bits_lxor (fl a : Z) :
  unknown_bits a = 0 -> unknown_bits (Z.lxor fl a) = unknown_bits fl.
Proof.
  unfold unknown_bits. set (known := Z.lor (Z.lor USER_FLAG TAG_FLAG) ENV_FLAG).
  intros Ha. apply Z.bits_inj'; intros n _.
  pose proof (f_equal (fun x => Z.testbit x n) Ha) as Hb. cbn beta in Hb.
  rewrite Z.bits_0, Z.ldiff_spec in Hb.
  rewrite !Z.ldiff_spec, Z.lxor_spec.
  destruct (Z.testbit fl n), (Z.testbit a n), (Z.testbit known n);
    try reflexivity; discriminate.
Qed.

Lemma unknown_bits_nonzero (fl : Z) :
  unknown_bits fl <> 0 -> (fl =? 0) = false.
Proof.
  intros H. destruct (Z.eqb_spec fl 0) as [-> | _]; [| reflexivity].
  exfalso. apply H. apply Z.ldiff_0_l.
Qed.

Section UnknownBits.
Context {os : OsPath}.
Variable t : table.

Lemma expand_unknown_never_returns (n : nat) :
  forall fl tgt r,
    unknown_bits fl <> 0 -> expand n t fl tgt = Some r -> exists e, r = Raises e.
Proof.
  induction n as [| n IH]; intros fl tgt r Hu H; [discriminate |].
  rewrite expand_S, (unknown_bits_nonzero fl Hu) in H.
  destruct (has_flag fl USER_FLAG).
  { apply IH in H; [exact H |]. rewrite unknown_bits_lxor by reflexivity.
    exact Hu. }
  destruct (has_flag fl TAG_FLAG).
  { apply bind_some in H. destruct H as [(e & _ & ->) | (x & _ & H)].
    - exists e. reflexivity.
    - apply IH in H; [exact H |]. rewrite unknown_bits_lxor by reflexivity.
      exact Hu. }
  destruct (has_flag fl ENV_FLAG).
  { apply IH in H; [exact H |]. rewrite unknown_bits_lxor by reflexivity.
    exact Hu. }
  inversion H. eexists. reflexivity.
Qed.

Lemma expand_unknown_no_flag (n : nat) (fl : Z) (tgt : string) :
  unknown_bits fl <> 0 ->
  has_flag fl USER_FLAG = false -> has_flag fl TAG_FLAG = false ->
  has_flag fl ENV_FLAG = false ->
  expand (S n) t fl tgt = raise (JmpException "Unexpected flag bit set.").
Proof.
  intros Hu H1 H2 H3.
  rewrite expand_S, (unknown_bits_nonzero fl Hu), H1, H2, H3. reflexivity.
Qed.

Lemma expand_unknown_env (n : nat) (fl : Z) (tgt : string) :
  unknown_bits fl <> 0 ->
  has_flag fl USER_FLAG = false -> has_flag fl TAG_FLAG = false ->
  expand (S (S n)) t fl tgt = raise (JmpException "Unexpected flag bit set.").
Proof.
  intros Hu H1 H2. destruct (has_flag fl ENV_FLAG) eqn:H3.
  - rewrite expand_S, (unknown_bits_nonzero fl Hu), H1, H2, H3.
    apply expand_unknown_no_flag.
    + rewrite unknown_bits_lxor by reflexivity. exact Hu.
    + rewrite has_flag_lxor_other by reflexivity. exact H1.
    + rewrite has_flag_lxor_other by reflexivity. exact H2.
    + rewrite ENV_FLAG_pow in *. apply has_flag_lxor_same; [lia | exact H3].
  - apply expand_unknown_no_flag; assumption.
Qed.

End UnknownBits.

(** X3: a flag value with a bit beyond the three known ones never expands to
    a path: every expansion that ends, ends in an exception; and when the tag
    flag is not set, that is [JmpException], after at most the home and the
    environment step. *)
Theorem expand_unknown_bit_raises {os : OsPath} (t : table) (fl : Z)
    (tgt : string) :
  unknown_bits fl <> 0 ->
  (forall n r, expand n t fl tgt = Some r -> exists e, r = Raises e)
  /\ (has_flag fl TAG_FLAG = false ->
      forall n, expand (3 + n) t fl tgt
                = raise (JmpException "Unexpected flag bit set.")).
Proof.
  intros Hu. split.
  - intros n r. apply expand_unknown_never_returns. exact Hu.
  - intros H2 n. change (3 + n)%nat with (S (S (S n))).
    destruct (has_flag fl USER_FLAG) eqn:H1.
    + rewrite expand_S, (unknown_bits_nonzero fl Hu), H1.
      apply expand_unknown_env.
      * rewrite unknown_bits_lxor by reflexivity. exact Hu.
      * rewrite USER_FLAG_pow in *. apply has_flag_lxor_same; [lia | exact H1].
      * rewrite has_flag_lxor_other by reflexivity. exact H2.
    + apply expand_unknown_env; assumption.
Qed.

(** The flag value 9: the home flag and an unknown bit. *)
Lemma expand_unknown_bit_raises_witness :
  unknown_bits 9 <> 0
  /\ expand (os := Demo.os) 3 [] 9 "~/x"
     = raise (JmpException "Unexpected flag bit set.").
Proof.
  assert (Hu : unknown_bits 9 <> 0) by discriminate.
  split; [exact Hu |].
  apply (proj2 (expand_unknown_bit_raises (os := Demo.os) [] 9 "~/x" Hu)
           eq_refl 0%nat).
Defined.

(** ** Deleting and storing *)

Lemma dict_mem_set_same (k : string) (v : JmpStore) (t : table) :
  dict_mem k (dict_set k v t) = true.
Proof. unfold dict_mem. rewrite dict_get_set_same. reflexivity. Qed.

Lemma dict_remove_set_fresh (k : string) (v : JmpStore) (t : table) :
  dict_mem k t = false -> dict_remove k (dict_set k v t) = t.
Proof.
  unfold dict_mem. induction t as [| [k' v'] t IH]; cbn.
  - rewrite String.eqb_refl. reflexivity.
  - destruct (String.eqb k k') eqn:E; [discriminate |].
    intros H. cbn. rewrite E, IH by exact H. reflexivity.
Qed.

Lemma log_with_table (b : JmpBackend) (t : table) (msg : string)
    (dbg : bool) (fd : stream) :
  log (with_table b t) msg dbg fd = log b msg dbg fd.
Proof. reflexivity. Qed.

(** X4: [delete_jmp] of a tag that is not stored says so, returns [False] and
    changes nothing; of a stored tag it returns [True], the tag is gone,
    every other tag keeps its entry, and deleting it once more fails. *)
Theorem delete_jmp_spec (b : JmpBackend) (tag : string) :
  NoDup (map fst (jmp_table b)) ->
  (dict_mem tag (jmp_table b) = false ->
   delete_jmp b tag
   = (false, b, log b ("Tag " ++ tag ++ " is not registered.") false Stdout))
  /\ (dict_mem tag (jmp_table b) = true ->
      exists b',
        delete_jmp b tag
        = (true, b', log b ("Deleted tag " ++ tag ++ ".") false Stdout)
        /\ dict_mem tag (jmp_table b') = false
        /\ (forall k, k <> tag ->
              dict_get k (jmp_table b') = dict_get k (jmp_table b))
        /\ fst (fst (delete_jmp b' tag)) = false).
Proof.
  intros Hnd. unfold delete_jmp, dict_mem.
  destruct (dict_get tag (jmp_table b)) as [s |] eqn:Hget; split;
    try discriminate; intros _; [| reflexivity].
  eexists. split; [reflexivity |]. cbn [jmp_table with_table].
  rewrite (dict_get_remove_same tag (jmp_table b) Hnd).
  repeat split. intros k Hk. apply dict_get_remove_other. exact Hk.
Qed.

(** Deleting [a] from the chain of [Demo], and a tag that is not there. *)
Lemma delete_jmp_spec_witness :
  NoDup (map fst Demo.chain)
  /\ delete_jmp (Demo.backend Demo.chain) "z"
     = (false, Demo.backend Demo.chain, [(Stdout, "Tag z is not registered.")])
  /\ exists b',
       delete_jmp (Demo.backend Demo.chain) "a"
       = (true, b', [(Stdout, "Deleted tag a.")])
       /\ dict_mem "a" (jmp_table b') = false.
Proof.
  assert (Hnd : NoDup (map fst Demo.chain)).
  { repeat constructor; cbn; intuition discriminate. }
  split; [exact Hnd |].
  destruct (delete_jmp_spec (Demo.backend Demo.chain) "z" Hnd) as [Hmiss _].
  destruct (delete_jmp_spec (Demo.backend Demo.chain) "a" Hnd) as [_ Hhit].
  split; [exact (Hmiss eq_refl) |].
  destruct (Hhit eq_refl) as (b' & Hdel & Hgone & _).
  exists b'. split; [exact Hdel | exact Hgone].
Defined.

Section StoreThen.
Context {os : OsPath}.

(** What a successful [store_jmp] did. *)
Lemma store_jmp_true (fuel : nat) (b b' : JmpBackend) (tag tgt : string)
    (absolute : bool) (out : output) :
  store_jmp fuel b tag tgt absolute = ret (true, b', out) ->
  exists fl raw path,
    expand fuel (jmp_table b) fl raw = ret path
    /\ isdir path = true
    /\ b' = with_table b (dict_set tag (JmpStore_init fl raw) (jmp_table b)).
Proof.
  unfold store_jmp. destruct (get_flags (jmp_table b) tgt) as [fl tgt'].
  intros H. apply bind_some in H.
  destruct H as [(e & _ & He) | (path & Hexp & H)]; [discriminate |].
  destruct (isdir path) eqn:Hdir; cbn [negb] in H; inversion H; subst.
  eexists. eexists. exists path.
  split; [exact Hexp | split; [exact Hdir | reflexivity]].
Qed.

(** A key that is added takes nothing from the expansions that returned. *)
Lemma expand_fresh_key (k : string) (v : JmpStore) (t : table) (n : nat) :
  dict_mem k t = false ->
  forall fl tgt p,
    expand n t fl tgt = ret p -> expand n (dict_set k v t) fl tgt = ret p.
Proof.
  intros Hfresh. induction n as [| n IH]; intros fl tgt p H; [discriminate |].
  rewrite expand_S in H. rewrite expand_S.
  destruct (fl =? 0); [exact H |].
  destruct (has_flag fl USER_FLAG); [apply IH; exact H |].
  destruct (has_flag fl TAG_FLAG).
  - unfold tag_step in *.
    destruct (dict_get (hd EmptyString (split os_sep tgt)) t) as [s |] eqn:Hget;
      [| discriminate].
    rewrite dict_get_set_other.
    + rewrite Hget.
      destruct (expand n t (flags s) (target s)) as [[root | e] |] eqn:E;
        try discriminate.
      rewrite (IH _ _ _ E). cbn [bind ret] in *. apply IH. exact H.
    + intros Heq. rewrite Heq in Hget. unfold dict_mem in Hfresh.
      rewrite Hget in Hfresh. discriminate.
  - destruct (has_flag fl ENV_FLAG); [apply IH; exact H | exact H].
Qed.

(** X5: deleting a tag right after storing it, when it was not in the table
    before, succeeds and gives back the backend as it was before the store:
    the same tags in the same order with the same entries. *)
Theorem store_then_delete_restores (fuel : nat) (b b' : JmpBackend)
    (tag tgt : string) (absolute : bool) (out : output) :
  store_jmp fuel b tag tgt absolute = ret (true, b', out) ->
  dict_mem tag (jmp_table b) = false ->
  delete_jmp b' tag
  = (true, b, log b ("Deleted tag " ++ tag ++ ".") false Stdout).
Proof.
  intros Hstore Hfresh.
  destruct (store_jmp_true _ _ _ _ _ _ _ Hstore) as (fl & raw & path & _ & _ & ->).
  unfold delete_jmp. cbn [jmp_table with_table].
  rewrite dict_get_set_same, dict_remove_set_fresh by exact Hfresh.
  rewrite log_with_table. destruct b. reflexivity.
Qed.

(** The jump to a tag that was just added to the table, on the directory
    its target expanded to before. *)
Lemma jmp_to_fresh_entry (fuel : nat) (b : JmpBackend) (t : table)
    (tag : string) (fl : Z) (raw path answer : string) :
  dict_mem tag t = false ->
  split os_sep tag = [tag] ->
  expandvars tag = tag ->
  expand fuel t fl raw = ret path ->
  isdir path = true ->
  jmp_to (S fuel) (with_table b (dict_set tag (JmpStore_init fl raw) t))
    answer tag
  = ret (true,
         with_table b
           (dict_set tag (bump_used (JmpStore_init fl raw))
              (dict_set tag (JmpStore_init fl raw) t)),
         log b ("bash: " ++ path) false Stdout).
Proof.
  intros Hfresh Hsplit Hvars Hexp Hdir.
  pose proof (expand_fresh_key tag (JmpStore_init fl raw) _ fuel Hfresh
                _ _ _ Hexp) as Hexp'.
  set (t' := dict_set tag (JmpStore_init fl raw) t) in *.
  assert (Hmem : dict_mem tag t' = true) by apply dict_mem_set_same.
  assert (Hget : dict_get tag t' = Some (JmpStore_init fl raw))
    by apply dict_get_set_same.
  unfold jmp_to. cbn [jmp_table with_table].
  pose proof (get_flags_mask t' tag) as Hg. cbv zeta in Hg.
  rewrite Hsplit in Hg. cbn [hd] in Hg.
  rewrite Hvars, String.eqb_refl, Hmem, andb_false_r in Hg. rewrite Hg.
  change (mask false true (negb true)) with TAG_FLAG.
  assert (Hpath : expand (S fuel) t' TAG_FLAG tag = ret path).
  { rewrite expand_S.
    change (TAG_FLAG =? 0) with false.
    change (has_flag TAG_FLAG USER_FLAG) with false.
    change (has_flag TAG_FLAG TAG_FLAG) with true.
    cbv iota. unfold tag_step. rewrite Hsplit. cbn [hd tl].
    rewrite Hget. cbn [flags target JmpStore_init].
    rewrite Hexp'. cbn [bind ret]. destruct fuel as [| fuel]; [discriminate |].
    reflexivity. }
  rewrite Hpath. cbn [bind ret]. rewrite Hdir. cbn [negb andb].
  change (has_flag TAG_FLAG TAG_FLAG) with true.
  rewrite Hmem, Hget. cbn [andb].
  rewrite log_with_table. reflexivity.
Qed.

(** X6: a tag without a separator and without a variable reference, stored
    successfully when it was not in the table, can be jumped to at once: the
    jump succeeds, prints the directory that the store validated, and leaves
    the new entry with one use, every other entry as before the store. *)
Theorem store_then_jump (fuel : nat) (b b' : JmpBackend) (tag tgt : string)
    (absolute : bool) (out : output) (answer : string) :
  store_jmp fuel b tag tgt absolute = ret (true, b', out) ->
  dict_mem tag (jmp_table b) = false ->
  split os_sep tag = [tag] ->
  expandvars tag = tag ->
  exists s path b'',
    dict_get tag (jmp_table b') = Some s
    /\ used s = 0
    /\ expand fuel (jmp_table b) (flags s) (target s) = ret path
    /\ isdir path = true
    /\ jmp_to (S fuel) b' answer tag
       = ret (true, b'', log b ("bash: " ++ path) false Stdout)
    /\ dict_get tag (jmp_table b'') = Some (bump_used s)
    /\ forall k, k <> tag ->
         dict_get k (jmp_table b'') = dict_get k (jmp_table b).
Proof.
  intros Hstore Hfresh Hsplit Hvars.
  destruct (store_jmp_true _ _ _ _ _ _ _ Hstore)
    as (fl & raw & path & Hexp & Hdir & ->).
  exists (JmpStore_init fl raw), path. eexists.
  cbn [jmp_table with_table flags target used JmpStore_init].
  split; [apply dict_get_set_same |].
  split; [reflexivity |]. split; [exact Hexp |]. split; [exact Hdir |].
  split; [| split].
  - apply jmp_to_fresh_entry; assumption.
  - cbn [jmp_table with_table]. apply dict_get_set_same.
  - intros k Hk. cbn [jmp_table with_table].
    rewrite !dict_get_set_other by exact Hk. reflexivity.
Qed.

End StoreThen.

(** Storing [c -> a/sub] over the chain of [Demo], then deleting [c]. *)
Lemma store_then_delete_restores_witness :
  store_jmp (os := Demo.os) 4 (Demo.backend Demo.chain) "c" "a/sub" true
  = ret (true,
         Demo.backend (Demo.chain ++ [("c", mkJmpStore 5 2 "a/sub" 0)])%list,
         [(Stdout, "Added jmp c -> a/sub")])
  /\ delete_jmp (Demo.backend (Demo.chain ++ [("c", mkJmpStore 5 2 "a/sub" 0)])%list)
       "c"
     = (true, Demo.backend Demo.chain, [(Stdout, "Deleted tag c.")]).
Proof.
  split; [reflexivity |].
  apply (store_then_delete_restores (os := Demo.os) 4 (Demo.backend Demo.chain)
           _ "c" "a/sub" true _ eq_refl eq_refl).
Defined.

(** Storing [c -> a/sub] over the chain of [Demo], then jumping to [c]. *)
Lemma store_then_jump_witness :
  store_jmp (os := Demo.os) 4 (Demo.backend Demo.chain) "c" "a/sub" true
  = ret (true,
         Demo.backend (Demo.chain ++ [("c", mkJmpStore 5 2 "a/sub" 0)])%list,
         [(Stdout, "Added jmp c -> a/sub")])
  /\ exists b'',
       jmp_to (os := Demo.os) 5
         (Demo.backend (Demo.chain ++ [("c", mkJmpStore 5 2 "a/sub" 0)])%list)
         "" "c"
       = ret (true, b'', [(Stdout, "bash: /tmp/sub")])
       /\ dict_get "c" (jmp_table b'') = Some (mkJmpStore 5 2 "a/sub" 1).
Proof.
  split; [reflexivity |].
  destruct (store_then_jump (os := Demo.os) 4 (Demo.backend Demo.chain)
              _ "c" "a/sub" true _ "" eq_refl eq_refl eq_refl eq_refl)
    as (s & path & b'' & Hs & _ & Hpath & _ & Hjump & Hget & _).
  cbn in Hs. injection Hs as <-. cbn in Hpath. injection Hpath as <-.
  exists b''. split; [exact Hjump | exact Hget].
Defined.

(** ** Output and jumps *)

Lemma log_suppressed (b : JmpBackend) (msg : string) (dbg : bool)
    (fd : stream) :
  SUPPRESS b = true -> log b msg dbg fd = [].
Proof. intros H. unfold log. rewrite H. reflexivity. Qed.

Lemma flat_map_silent {A B} (f : A -> list B) (l : list A) :
  (forall x, f x = []) -> flat_map f l = [].
Proof.
  intros H. induction l as [| x l IH]; cbn; [| rewrite H, IH]; reflexivity.
Qed.

(** [lower] gives [y] for the answers [y] and [Y] and no other. *)
Lemma lower_is_y (answer : string) :
  String.eqb (lower answer) "y" = true <-> answer = "y" \/ answer = "Y".
Proof.
  split.
  - intros H. apply String.eqb_eq in H.
    destruct answer as [| c r]; [discriminate |].
    cbn [lower] in H. injection H as Hc Hr.
    destruct r; [| discriminate]. clear Hr.
    destruct c as [[] [] [] [] [] [] [] []]; vm_compute in Hc;
      try discriminate; auto.
  - intros [-> | ->]; reflexivity.
Qed.

Section Jumps.
Context {os : OsPath}.

Lemma get_flags_snd (t : table) (tgt : string) : snd (get_flags t tgt) = tgt.
Proof. reflexivity. Qed.

(** X7: with [SUPPRESS] set, [print_list], [delete_jmp] and [store_jmp]
    print nothing, and [jmp_to] prints the prompt, which [input] shows
    whatever the setting, exactly when the jump fails on an input that is
    classified as tag-relative and is itself a stored tag, and nothing in
    every other case, success included; all leave [SUPPRESS] set. *)
Theorem suppress_silences (b : JmpBackend) :
  SUPPRESS b = true ->
  print_list b = []
  /\ (forall tag,
        snd (delete_jmp b tag) = []
        /\ SUPPRESS (snd (fst (delete_jmp b tag))) = true)
  /\ (forall fuel tag tgt absolute ok b' out,
        store_jmp fuel b tag tgt absolute = ret (ok, b', out) ->
        out = [] /\ SUPPRESS b' = true)
  /\ (forall fuel answer tag ok b' out,
        jmp_to fuel b answer tag = ret (ok, b', out) ->
        out = (if (negb ok
                   && (has_flag (fst (get_flags (jmp_table b) tag)) TAG_FLAG
                       && dict_mem tag (jmp_table b)))%bool
               then [(Stderr, "delete tag? (y/n): ")] else [])
        /\ SUPPRESS b' = true).
Proof.
  intros Hs.
  assert (Hdel : forall tag,
             snd (delete_jmp b tag) = []
             /\ SUPPRESS (snd (fst (delete_jmp b tag))) = true).
  { intros tag. unfold delete_jmp.
    destruct (dict_get tag (jmp_table b)); cbn [fst snd];
      rewrite log_suppressed by exact Hs; split; auto. }
  split; [| split; [exact Hdel | split]].
  - unfold print_list. rewrite !log_suppressed by exact Hs.
    rewrite flat_map_silent.
    + destruct (jmp_table b); reflexivity.
    + intros j. apply log_suppressed. exact Hs.
  - intros fuel tag tgt absolute ok b' out H. unfold store_jmp in H.
    destruct (get_flags (jmp_table b) tgt) as [fl tgt'].
    apply bind_some in H.
    destruct H as [(e & _ & He) | (path & _ & H)]; [discriminate |].
    rewrite !log_suppressed in H by exact Hs.
    destruct (negb (isdir path)); inversion H; subst; split; auto.
  - intros fuel answer tag ok b' out H. unfold jmp_to in H.
    destruct (get_flags (jmp_table b) tag) as [fl tgt]. cbn [fst].
    apply bind_some in H.
    destruct H as [(e & _ & He) | (path & _ & H)]; [discriminate |].
    rewrite !log_suppressed in H by exact Hs.
    destruct (negb (isdir path) && negb (String.eqb tgt "-"))%bool.
    + destruct (has_flag fl TAG_FLAG && dict_mem tag (jmp_table b))%bool.
      * destruct (String.eqb (lower answer) "y").
        -- destruct (Hdel tag) as [Hout Hsup].
           destruct (delete_jmp b tag) as [[ok' b1] out1]. cbn [fst snd] in *.
           inversion H; subst. split; [reflexivity | exact Hsup].
        -- inversion H; subst. split; [reflexivity | exact Hs].
      * inversion H; subst. split; [reflexivity | exact Hs].
    + inversion H; subst. split; [reflexivity |].
      destruct (has_flag fl TAG_FLAG && dict_mem tag (jmp_table b))%bool;
        [| exact Hs].
      destruct (dict_get tag (jmp_table b)); exact Hs.
Qed.

(** X8: an input with no indirection at all (no tag, no [~], no variable) is
    taken as the path it is, as [cd] would: the jump succeeds exactly when
    the path is a directory or is [-], prints the path verbatim for the
    shell, and never touches the backend. *)
Theorem jmp_to_plain_path (n : nat) (b : JmpBackend) (answer p : string) :
  fst (get_flags (jmp_table b) p) = 0 ->
  jmp_to (S n) b answer p
  = ret (if (isdir p || String.eqb p "-")%bool
         then (true, b, log b ("bash: " ++ p) false Stdout)
         else (false, b,
               log b ("Tag " ++ p ++ " points to an invalid path.")
                 false Stderr)).
Proof.
  intros Hfl. unfold jmp_to.
  pose proof (get_flags_snd (jmp_table b) p) as Hsnd.
  destruct (get_flags (jmp_table b) p) as [fl tgt]. cbn [fst snd] in *.
  subst fl tgt. rewrite expand_0. cbn [bind ret].
  rewrite has_flag_0. cbn [andb].
  destruct (isdir p), (String.eqb p "-"); reflexivity.
Qed.

(** X9: the input [-] is never refused: whenever its expansion returns, the
    jump succeeds and prints it, directory or not. *)
Theorem jmp_to_dash_accepted (fuel : nat) (b b' : JmpBackend)
    (answer : string) (ok : bool) (out : output) :
  jmp_to fuel b answer "-" = ret (ok, b', out) ->
  ok = true /\ exists path, out = log b ("bash: " ++ path) false Stdout.
Proof.
  intros H. unfold jmp_to in H.
  pose proof (get_flags_snd (jmp_table b) "-") as Hsnd.
  destruct (get_flags (jmp_table b) "-") as [fl tgt]. cbn [snd] in Hsnd.
  subst tgt. apply bind_some in H.
  destruct H as [(e & _ & He) | (path & _ & H)]; [discriminate |].
  change (String.eqb "-" "-") with true in H.
  rewrite andb_false_r in H. inversion H; subst.
  split; [reflexivity | exists path; reflexivity].
Qed.

(** X10: when a jump fails, the user is asked whether to delete the tag
    exactly when the input is classified as tag-relative and is itself a
    stored tag; answering [y] or [Y] removes that tag and only it, any other
    answer, or not being asked, leaves the backend as it was. *)
Theorem jmp_to_failure_recovery (fuel : nat) (b b' : JmpBackend)
    (answer tag : string) (out : output) :
  NoDup (map fst (jmp_table b)) ->
  jmp_to fuel b answer tag = ret (false, b', out) ->
  let asked := (has_flag (fst (get_flags (jmp_table b) tag)) TAG_FLAG
                && dict_mem tag (jmp_table b))%bool in
  (In (Stderr, "delete tag? (y/n): ") out <-> asked = true)
  /\ (asked = true -> answer = "y" \/ answer = "Y" ->
      jmp_table b' = dict_remove tag (jmp_table b)
      /\ dict_mem tag (jmp_table b') = false
      /\ forall k, k <> tag ->
           dict_get k (jmp_table b') = dict_get k (jmp_table b))
  /\ (asked = true -> answer <> "y" -> answer <> "Y" -> b' = b)
  /\ (asked = false -> b' = b).
Proof.
  intros Hnd H asked. unfold jmp_to in H.
  destruct (get_flags (jmp_table b) tag) as [fl tgt]. cbn [fst] in asked.
  apply bind_some in H.
  destruct H as [(e & _ & He) | (path & _ & H)]; [discriminate |].
  fold asked in H.
  assert (Hasked : asked
                   = (has_flag fl TAG_FLAG && dict_mem tag (jmp_table b))%bool)
    by reflexivity.
  clearbody asked.
  destruct (negb (isdir path) && negb (String.eqb tgt "-"))%bool;
    [| discriminate].
  assert (Hprompt : forall pre post : output,
             In (Stderr, "delete tag? (y/n): ")
                ((pre ++ [(Stderr, "delete tag? (y/n): ")]) ++ post)%list).
  { intros pre post. apply in_or_app. left. apply in_or_app. right.
    left. reflexivity. }
  destruct asked.
  - symmetry in Hasked. apply andb_true_iff in Hasked.
    destruct Hasked as [_ Hmem].
    destruct (String.eqb (lower answer) "y") eqn:Hy.
    + unfold delete_jmp in H. unfold dict_mem in Hmem.
      destruct (dict_get tag (jmp_table b)); [| discriminate].
      inversion H; subst. cbn [jmp_table with_table].
      split; [split; auto |]. split; [| split].
      * intros _ _. split; [reflexivity |]. split.
        -- unfold dict_mem. rewrite dict_get_remove_same by exact Hnd.
           reflexivity.
        -- intros k Hk. apply dict_get_remove_other. exact Hk.
      * intros _ H1 H2. apply lower_is_y in Hy. tauto.
      * discriminate.
    + inversion H; subst.
      split; [split; [reflexivity |] |].
      { intros _. apply in_or_app. right. left. reflexivity. }
      split; [| split].
      * intros _ Hans. apply lower_is_y in Hans. congruence.
      * reflexivity.
      * discriminate.
  - inversion H; subst. split; [split |]; [| discriminate |].
    + unfold log. destruct (SUPPRESS _); cbn; [tauto |].
      intros [Heq | []]. discriminate.
    + split; [discriminate |]. split; [discriminate | reflexivity].
Qed.

End Jumps.

(** A silenced backend with a tag [gone] that points at no directory and a
    tag [t] that points at [/tmp]: the listing is empty, the failed jump to
    [gone] shows the prompt and nothing else, the jump to [t] nothing. *)
Lemma suppress_silences_witness :
  SUPPRESS
    (mkBackend [("gone", mkJmpStore 5 0 "/nowhere" 0);
                ("t", mkJmpStore 5 0 "/tmp" 0)] true false) = true
  /\ print_list
       (mkBackend [("gone", mkJmpStore 5 0 "/nowhere" 0);
                   ("t", mkJmpStore 5 0 "/tmp" 0)] true false) = []
  /\ jmp_to (os := Demo.os) 3
       (mkBackend [("gone", mkJmpStore 5 0 "/nowhere" 0);
                   ("t", mkJmpStore 5 0 "/tmp" 0)] true false) "n" "gone"
     = ret (false,
            mkBackend [("gone", mkJmpStore 5 0 "/nowhere" 0);
                       ("t", mkJmpStore 5 0 "/tmp" 0)] true false,
            [(Stderr, "delete tag? (y/n): ")])
  /\ jmp_to (os := Demo.os) 3
       (mkBackend [("gone", mkJmpStore 5 0 "/nowhere" 0);
                   ("t", mkJmpStore 5 0 "/tmp" 0)] true false) "n" "t"
     = ret (true,
            mkBackend [("gone", mkJmpStore 5 0 "/nowhere" 0);
                       ("t", mkJmpStore 5 0 "/tmp" 1)] true false,
            []).
Proof.
  split; [reflexivity |].
  destruct (suppress_silences (os := Demo.os)
              (mkBackend [("gone", mkJmpStore 5 0 "/nowhere" 0);
                          ("t", mkJmpStore 5 0 "/tmp" 0)] true false)
              eq_refl) as (Hlist & _ & _ & Hjump).
  split; [exact Hlist |].
  pose proof (Hjump 3%nat "n" "gone" false _ _ eq_refl) as [Hgone _].
  pose proof (Hjump 3%nat "n" "t" true _ _ eq_refl) as [Ht _].
  split; reflexivity.
Defined.

(** The plain paths [/tmp], a directory, and [/nowhere], none. *)
Lemma jmp_to_plain_path_witness :
  fst (get_flags (os := Demo.os) Demo.chain "/tmp") = 0
  /\ jmp_to (os := Demo.os) 1 (Demo.backend Demo.chain) "" "/tmp"
     = ret (true, Demo.backend Demo.chain, [(Stdout, "bash: /tmp")])
  /\ jmp_to (os := Demo.os) 1 (Demo.backend Demo.chain) "" "/nowhere"
     = ret (false, Demo.backend Demo.chain,
            [(Stderr, "Tag /nowhere points to an invalid path.")]).
Proof.
  split; [reflexivity |]. split.
  - apply (jmp_to_plain_path (os := Demo.os) 0 (Demo.backend Demo.chain)
             "" "/tmp" eq_refl).
  - apply (jmp_to_plain_path (os := Demo.os) 0 (Demo.backend Demo.chain)
             "" "/nowhere" eq_refl).
Defined.

(** [-] is no directory of [Demo], and the jump to it succeeds. *)
Lemma jmp_to_dash_accepted_witness :
  isdir (OsPath := Demo.os) "-" = false
  /\ jmp_to (os := Demo.os) 1 (Demo.backend Demo.chain) "" "-"
     = ret (true, Demo.backend Demo.chain, [(Stdout, "bash: -")])
  /\ exists path,
       [(Stdout, "bash: -")]
       = log (Demo.backend Demo.chain) ("bash: " ++ path) false Stdout.
Proof.
  split; [reflexivity |]. split; [reflexivity |].
  apply (proj2 (jmp_to_dash_accepted (os := Demo.os) 1
                  (Demo.backend Demo.chain) (Demo.backend Demo.chain) "" true
                  [(Stdout, "bash: -")] eq_refl)).
Defined.

(** The tag [gone], whose directory is no more: declined, then confirmed. *)
Lemma jmp_to_failure_recovery_witness :
  NoDup (map fst [("gone", mkJmpStore 5 0 "/nowhere" 0)])
  /\ jmp_to (os := Demo.os) 3
       (Demo.backend [("gone", mkJmpStore 5 0 "/nowhere" 0)]) "Y" "gone"
     = ret (false, Demo.backend [],
            [(Stderr, "Tag gone points to an invalid path.");
             (Stderr, "delete tag? (y/n): ");
             (Stdout, "Deleted tag gone.")])
  /\ dict_mem "gone" (jmp_table (Demo.backend [])) = false.
Proof.
  assert (Hnd : NoDup (map fst [("gone", mkJmpStore 5 0 "/nowhere" 0)])).
  { repeat constructor; cbn; intuition discriminate. }
  split; [exact Hnd |]. split; [reflexivity |].
  destruct (jmp_to_failure_recovery (os := Demo.os) 3
              (Demo.backend [("gone", mkJmpStore 5 0 "/nowhere" 0)])
              (Demo.backend []) "Y" "gone" _ Hnd eq_refl)
    as (_ & Hyes & _).
  destruct (Hyes eq_refl (or_intror eq_refl)) as (_ & Hgone & _).
  exact Hgone.
Defined.

(** ** Completion *)

Section SortedMap.
Context {A B : Type} (f : A -> B) (key : A -> Z) (key' : B -> Z).

Lemma insert_by_map (x : A) (l : list A) :
  key' (f x) = key x -> (forall y, In y l -> key' (f y) = key y) ->
  insert_by key' (f x) (map f l) = map f (insert_by key x l).
Proof.
  intros Hx. induction l as [| y l IH]; intros Hl; [reflexivity |].
  cbn [map insert_by]. rewrite Hx, (Hl y (or_introl eq_refl)).
  destruct (key x <=? key y); [reflexivity |].
  cbn [map]. rewrite IH; [reflexivity |].
  intros z Hz. apply Hl. right. exact Hz.
Qed.

Lemma sorted_map (l : list A) :
  (forall y, In y l -> key' (f y) = key y) ->
  sorted key' (map f l) = map f (sorted key l).
Proof.
  induction l as [| x l IH]; intros Hl; [reflexivity |].
  cbn [map sorted]. rewrite IH by (intros y Hy; apply Hl; right; exact Hy).
  apply insert_by_map.
  - apply Hl. left. reflexivity.
  - intros y Hy. apply Hl. right.
    exact (Permutation_in y (sorted_perm key l) Hy).
Qed.

End SortedMap.

Lemma dict_get_of_In (k : string) (s : JmpStore) (t : table) :
  NoDup (map fst t) -> In (k, s) t -> dict_get k t = Some s.
Proof.
  induction t as [| [k' v'] t IH]; cbn; [tauto |].
  intros Hnd Hin. inversion Hnd as [| ? ? Hnotin Hnd']; subst.
  destruct Hin as [Heq | Hin].
  - injection Heq as -> ->. rewrite String.eqb_refl. reflexivity.
  - destruct (String.eqb_spec k k') as [-> | _]; [| apply IH; assumption].
    exfalso. apply Hnotin. exact (in_map fst _ _ Hin).
Qed.

Lemma completion_key_list_key (t : table) (j : string * JmpStore) :
  NoDup (map fst t) -> In j t -> completion_key t (fst j) = list_key j.
Proof.
  intros Hnd Hin. destruct j as [k s]. unfold completion_key, list_key.
  cbn [fst snd]. rewrite (dict_get_of_In k s t Hnd Hin). reflexivity.
Qed.

(** X11: asked to complete a word without a separator, or no word at all,
    with tags in the table, [completion] prints one line with every tag in
    double quotes, in the very order in which [print_list] lists them
    (descending usage, ties in table order), expands nothing and stays in
    the working directory. *)
Theorem completion_lists_tags {os : OsPath} {sys : OsSys} (fuel : nat)
    (b : JmpBackend) (cwd : dir) (opts : list string) :
  NoDup (map fst (jmp_table b)) ->
  jmp_table b <> [] ->
  (List.length opts <= 1)%nat \/ contains os_sep (last opts EmptyString) = false ->
  completion fuel b cwd opts
  = Some (Finished
            (log b (join " " (map quoted
                                (map fst (sorted list_key (jmp_table b)))))
               false Stdout,
             cwd)).
Proof.
  intros Hnd Hne Hopts. unfold completion.
  assert (Hdir : (match (if Nat.ltb 1 (List.length opts)
                         then Some (last opts EmptyString) else None) with
                  | Some c => (negb (String.eqb c "") && contains os_sep c)%bool
                  | None => false
                  end) = false).
  { destruct (Nat.ltb_spec 1 (List.length opts)) as [Hlt | Hle];
      [| reflexivity].
    destruct Hopts as [Hle | Hno]; [lia |]. rewrite Hno. apply andb_false_r. }
  rewrite Hdir.
  rewrite (sorted_map fst list_key (completion_key (jmp_table b)))
    by (intros j Hj; apply completion_key_list_key; assumption).
  destruct (sorted list_key (jmp_table b)) as [| j l] eqn:E.
  - exfalso. apply Hne. apply Permutation_nil.
    rewrite <- E. apply sorted_perm.
  - reflexivity.
Qed.

(** ** Sessions: [main] *)

Section Sessions.
Context {os : OsPath} {sys : OsSys} {pk : Pickle}.

Lemma JmpBackend_new_ok :
  storage_ok = true -> JmpBackend_new "~/.jmp_pad" = (Some JmpBackend_init, []).
Proof.
  unfold storage_ok, JmpBackend_new. cbv zeta.
  destruct (isdir _); cbn [negb orb]; [reflexivity |].
  intros ->. reflexivity.
Qed.

Lemma JmpBackend_new_fail :
  storage_ok = false -> JmpBackend_new "~/.jmp_pad" = (None, storage_error).
Proof.
  unfold storage_ok, JmpBackend_new. cbv zeta.
  destruct (isdir _); cbn [negb orb]; [discriminate |].
  intros ->. reflexivity.
Qed.

(** What a new session loads. *)
Lemma load_table_new (file : option file_data) :
  load_table JmpBackend_init file
  = match file with
    | None => Returns (JmpBackend_init, [])
    | Some data =>
        match pickle_load data with
        | Returns t => Returns (with_table JmpBackend_init t, [])
        | Raises EOFError => Returns (JmpBackend_init, [])
        | Raises e => Raises e
        end
    end.
Proof.
  unfold load_table. destruct file as [data |]; [| reflexivity].
  destruct (pickle_load data) as [t | e]; [reflexivity |].
  destruct e; reflexivity.
Qed.

Lemma save_table_new (t : table) :
  save_table (with_table JmpBackend_init t) = (Some (pickle_dump t), []).
Proof. reflexivity. Qed.

(** X12: when the storage directory is neither there nor can be made, [main]
    says so and exits with status 1, whatever it was asked: the store file
    is neither read nor written. *)
Theorem main_without_storage_exits (fuel : nat) (args : Args) (cwd : dir)
    (file : option file_data) (answer : string) :
  storage_ok = false ->
  main fuel args cwd file answer = Some (file, storage_error, SystemExit 1).
Proof.
  intros H. unfold main. rewrite (JmpBackend_new_fail H). reflexivity.
Qed.

(** X13: a store file on which [pickle.load] raises anything but [EOFError]
    ends [main] with that exception before the request is looked at, and the
    file is left as it is, not overwritten. *)
Theorem main_corrupt_store_untouched (fuel : nat) (args : Args) (cwd : dir)
    (data : file_data) (answer : string) (e : exn) :
  storage_ok = true ->
  pickle_load data = Raises e -> e <> EOFError ->
  main fuel args cwd (Some data) answer = Some (Some data, [], Uncaught e).
Proof.
  intros Hs Hload He. unfold main.
  rewrite (JmpBackend_new_ok Hs), load_table_new, Hload.
  destruct e; try reflexivity. contradiction.
Qed.

(** X14: a listing request prints the listing of the table it loaded and
    writes that table back unchanged; with no store file it prints the
    empty listing and creates the file with an empty table. *)
Theorem main_list_keeps_table (fuel : nat) (args : Args) (cwd : dir)
    (answer : string) :
  storage_ok = true ->
  truthy_list (args_optlist args) = false -> args_list args = true ->
  main fuel args cwd None answer
  = Some (Some (pickle_dump []),
          [(Stdout, "jmp_table:"); (Stdout, "  empty")], Finished tt)
  /\ forall data t,
       pickle_load data = Returns t ->
       main fuel args cwd (Some data) answer
       = Some (Some (pickle_dump t),
               print_list (with_table JmpBackend_init t), Finished tt).
Proof.
  intros Hs Hopt Hlist. split.
  - unfold main. rewrite (JmpBackend_new_ok Hs), load_table_new.
    unfold main_body. rewrite Hopt, Hlist. reflexivity.
  - intros data t Hload. unfold main.
    rewrite (JmpBackend_new_ok Hs), load_table_new, Hload.
    unfold main_body. rewrite Hopt, Hlist, save_table_new.
    cbn [app]. rewrite app_nil_r. reflexivity.
Qed.

(** X15: after [--clear], whatever table was loaded, the store file holds
    the empty table and nothing was printed; and the listing of the next
    session is the empty one. *)
Theorem main_clear_then_list (fuel fuel' : nat) (args args' : Args)
    (cwd cwd' : dir) (data : file_data) (t : table) (answer answer' : string) :
  storage_ok = true ->
  (forall t, pickle_load (pickle_dump t) = Returns t) ->
  pickle_load data = Returns t ->
  truthy_list (args_optlist args) = false -> args_list args = false ->
  args_clear args = true ->
  truthy_list (args_optlist args') = false -> args_list args' = true ->
  main fuel args cwd (Some data) answer
  = Some (Some (pickle_dump []), [], Finished tt)
  /\ main fuel' args' cwd' (Some (pickle_dump [])) answer'
     = Some (Some (pickle_dump []),
             [(Stdout, "jmp_table:"); (Stdout, "  empty")], Finished tt).
Proof.
  intros Hs Hrt Hload Hopt Hlist Hclear Hopt' Hlist'. split.
  - unfold main. rewrite (JmpBackend_new_ok Hs), load_table_new, Hload.
    unfold main_body. rewrite Hopt, Hlist, Hclear. reflexivity.
  - unfold main. rewrite (JmpBackend_new_ok Hs), load_table_new, Hrt.
    unfold main_body. rewrite Hopt', Hlist'. reflexivity.
Qed.

(** X16: when the expansion of the input raises in a [jmp tag] request, as
    [KeyError] does on a tag whose referenced tag was deleted, which is
    before [jmp_to] prints or asks anything, the exception leaves [main]
    uncaught with nothing printed, and the table is still written back,
    unchanged. *)
Theorem main_expansion_raises_saves (fuel : nat) (cwd : dir)
    (data : file_data) (t : table) (answer tag : string) (e : exn) :
  storage_ok = true ->
  pickle_load data = Returns t ->
  tag <> "" ->
  expand fuel t (fst (get_flags t tag)) tag = raise e ->
  main fuel (jump_request tag) cwd (Some data) answer
  = Some (Some (pickle_dump t), [], Uncaught e).
Proof.
  intros Hs Hload Htag Hexp. unfold main.
  rewrite (JmpBackend_new_ok Hs), load_table_new, Hload.
  unfold main_body, jump_request.
  cbn [args_optlist args_list args_clear args_tag args_target args_delete
       args_expand truthy_list truthy_str str_or_empty].
  destruct (String.eqb_spec tag "") as [-> | _]; [contradiction |].
  cbn [negb andb]. unfold jmp_to. cbn [jmp_table with_table].
  pose proof (get_flags_snd t tag) as Hsnd.
  destruct (get_flags t tag) as [fl tgt]. cbn [fst snd] in *. subst tgt.
  rewrite Hexp. reflexivity.
Qed.


End Sessions.

(** Completing [a] over the chain of [Demo]. *)
Lemma completion_lists_tags_witness :
  NoDup (map fst Demo.chain)
  /\ completion (os := Demo.os) (sys := DemoSys.sys) 0
       (Demo.backend Demo.chain) "/home/u" ["jmp"; "a"]
     = Some (Finished
               ([(Stdout, quoted "a" ++ " " ++ quoted "b")], "/home/u")).
Proof.
  assert (Hnd : NoDup (map fst Demo.chain)).
  { repeat constructor; cbn; intuition discriminate. }
  split; [exact Hnd |].
  apply (completion_lists_tags (os := Demo.os) (sys := DemoSys.sys) 0
           (Demo.backend Demo.chain) "/home/u" ["jmp"; "a"] Hnd).
  - discriminate.
  - right. reflexivity.
Defined.

(** A home directory in which nothing can be made. *)
Lemma main_without_storage_exits_witness :
  storage_ok (os := Demo.os) (sys := DemoSys.readonly) = false
  /\ main (os := Demo.os) (sys := DemoSys.readonly) (pk := Demo.pk) 3
       list_request "/home/u" None ""
     = Some (None,
             [(Stdout, "Could not make storage directory /home/u/.jmp_pad.")],
             SystemExit 1).
Proof.
  split; [reflexivity |].
  apply (main_without_storage_exits (os := Demo.os) (sys := DemoSys.readonly)
           (pk := Demo.pk) 3 list_request "/home/u" None "" eq_refl).
Defined.

(** A store file that is no pickle. *)
Lemma main_corrupt_store_untouched_witness :
  storage_ok (os := Demo.os) (sys := DemoSys.sys) = true
  /\ main (os := Demo.os) (sys := DemoSys.sys) (pk := Demo.pk) 3
       clear_request "/home/u" (Some Demo.Garbage) ""
     = Some (Some Demo.Garbage, [], Uncaught UnpicklingError).
Proof.
  split; [reflexivity |].
  apply (main_corrupt_store_untouched (os := Demo.os) (sys := DemoSys.sys)
           (pk := Demo.pk) 3 clear_request "/home/u" Demo.Garbage ""
           UnpicklingError eq_refl eq_refl).
  discriminate.
Defined.

(** Listing with no store file, and with the chain of [Demo] stored. *)
Lemma main_list_keeps_table_witness :
  main (os := Demo.os) (sys := DemoSys.sys) (pk := Demo.pk) 0
    list_request "/home/u" None ""
  = Some (Some (Demo.Dumped []),
          [(Stdout, "jmp_table:"); (Stdout, "  empty")], Finished tt)
  /\ main (os := Demo.os) (sys := DemoSys.sys) (pk := Demo.pk) 0
       list_request "/home/u" (Some (Demo.Dumped Demo.chain)) ""
     = Some (Some (Demo.Dumped Demo.chain),
             [(Stdout, "jmp_table:"); (Stdout, "  a (0) -> /tmp");
              (Stdout, "  b (0) -> a/sub")], Finished tt).
Proof.
  destruct (main_list_keeps_table (os := Demo.os) (sys := DemoSys.sys)
              (pk := Demo.pk) 0 list_request "/home/u" ""
              eq_refl eq_refl eq_refl) as [Hnone Hsome].
  split; [exact Hnone |].
  apply (Hsome (Demo.Dumped Demo.chain) Demo.chain eq_refl).
Defined.

(** Clearing the chain of [Demo], then listing. *)
Lemma main_clear_then_list_witness :
  main (os := Demo.os) (sys := DemoSys.sys) (pk := Demo.pk) 0
    clear_request "/home/u" (Some (Demo.Dumped Demo.chain)) ""
  = Some (Some (Demo.Dumped []), [], Finished tt)
  /\ main (os := Demo.os) (sys := DemoSys.sys) (pk := Demo.pk) 0
       list_request "/tmp" (Some (Demo.Dumped [])) ""
     = Some (Some (Demo.Dumped []),
             [(Stdout, "jmp_table:"); (Stdout, "  empty")], Finished tt).
Proof.
  apply (main_clear_then_list (os := Demo.os) (sys := DemoSys.sys)
           (pk := Demo.pk) 0 0 clear_request list_request "/home/u" "/tmp"
           (Demo.Dumped Demo.chain) Demo.chain "" ""
           eq_refl (fun t => eq_refl) eq_refl eq_refl eq_refl eq_refl
           eq_refl eq_refl).
Defined.

(** [jmp b] on the dangling table of [Demo]. *)
Lemma main_expansion_raises_saves_witness :
  expand (os := Demo.os) 3 Demo.dangling
    (fst (get_flags (os := Demo.os) Demo.dangling "b")) "b"
  = raise (KeyError "a")
  /\ main (os := Demo.os) (sys := DemoSys.sys) (pk := Demo.pk) 3
       (jump_request "b") "/home/u" (Some (Demo.Dumped Demo.dangling)) ""
     = Some (Some (Demo.Dumped Demo.dangling), [], Uncaught (KeyError "a")).
Proof.
  split; [reflexivity |].
  apply (main_expansion_raises_saves (os := Demo.os) (sys := DemoSys.sys)
           (pk := Demo.pk) 3 "/home/u" (Demo.Dumped Demo.dangling)
           Demo.dangling "" "b" (KeyError "a") eq_refl eq_refl).
  - discriminate.
  - reflexivity.
Defined.


(** ** The picker and directory completion *)

(** X18: without a tag, or with the empty string for one, and no listing,
    clearing or completion asked, [main] runs the picker whatever else was
    given (a target, [-d], [-e]): nothing is stored or deleted, and the table
    is written back as loaded. *)
Theorem main_without_tag_runs_picker {os : OsPath} {sys : OsSys} {pk : Pickle}
    (fuel : nat) (args : Args) (cwd : dir) (data : file_data) (t : table)
    (answer : string) :
  storage_ok = true ->
  pickle_load data = Returns t ->
  truthy_list (args_optlist args) = false ->
  args_list args = false -> args_clear args = false ->
  truthy_str (args_tag args) = false ->
  main fuel args cwd (Some data) answer
  = Some (Some (pickle_dump t), git_fzf (with_table JmpBackend_init t) cwd,
          Finished tt).
Proof.
  intros Hs Hload Hopt Hlist Hclear Htag. unfold main.
  rewrite (JmpBackend_new_ok Hs), load_table_new, Hload.
  unfold main_body. rewrite Hopt, Hlist, Hclear, Htag. cbn [andb].
  rewrite save_table_new. unfold default_action.
  cbn [app]. rewrite app_nil_r. reflexivity.
Qed.

(** [jmp -d '' /tmp] over the chain of [Demo]: the picker runs. *)
Lemma main_without_tag_runs_picker_witness :
  main (os := Demo.os) (sys := DemoSys.sys) (pk := Demo.pk) 0
    (mkArgs None false false true true false (Some "") (Some "/tmp"))
    "/home/u" (Some (Demo.Dumped Demo.chain)) ""
  = Some (Some (Demo.Dumped Demo.chain), [(Stdout, "bash: ./docs")],
          Finished tt).
Proof.
  apply (main_without_tag_runs_picker (os := Demo.os) (sys := DemoSys.sys)
           (pk := Demo.pk) 0
           (mkArgs None false false true true false (Some "") (Some "/tmp"))
           "/home/u" (Demo.Dumped Demo.chain) Demo.chain ""
           eq_refl eq_refl eq_refl eq_refl eq_refl eq_refl).
Defined.

Lemma insert_str_perm (x : string) (l : list string) :
  Permutation (insert_str x l) (x :: l).
Proof.
  induction l as [| y l IH]; cbn [insert_str].
  - apply Permutation_refl.
  - destruct (String.leb x y).
    + apply Permutation_refl.
    + apply perm_trans with (y :: x :: l).
      * apply perm_skip. exact IH.
      * apply perm_swap.
Qed.

Lemma sorted_str_perm (l : list string) : Permutation (sorted_str l) l.
Proof.
  induction l as [| x l IH]; cbn [sorted_str].
  - apply perm_nil.
  - apply perm_trans with (x :: sorted_str l).
    + apply insert_str_perm.
    + apply perm_skip. exact IH.
Qed.

Lemma insert_str_sorted (x : string) (l : list string) :
  Sorted (fun a b => String.leb a b = true) l ->
  Sorted (fun a b => String.leb a b = true) (insert_str x l).
Proof.
  induction l as [| y l IH]; intros Hs; cbn [insert_str].
  - repeat constructor.
  - destruct (String.leb x y) eqn:Hxy.
    + constructor; [exact Hs |]. constructor. exact Hxy.
    + assert (Hyx : String.leb y x = true).
      { destruct (String.leb_total x y) as [H | H]; [congruence | exact H]. }
      inversion Hs as [| ? ? Hs' Hhd]; subst.
      constructor; [apply IH; exact Hs' |].
      destruct l as [| z l]; cbn [insert_str].
      * constructor. exact Hyx.
      * destruct (String.leb x z); constructor; [exact Hyx |].
        inversion Hhd; assumption.
Qed.

Lemma sorted_str_sorted (l : list string) :
  Sorted (fun a b => String.leb a b = true) (sorted_str l).
Proof.
  induction l as [| x l IH]; cbn [sorted_str].
  - constructor.
  - apply insert_str_sorted. exact IH.
Qed.

Lemma contains_nonempty (sep : ascii) (s : string) :
  contains sep s = true -> String.eqb s "" = false.
Proof. destruct s; [discriminate | reflexivity]. Qed.

(** X19: asked to complete a word with a separator, [completion] expands
    what stands before the last separator, enters that directory and prints,
    on one line and in double quotes, its subdirectories, each joined to the
    typed part, in ascending order, and stays in that directory; when the
    directory cannot be entered or listed it prints nothing and ends
    normally. *)
Theorem completion_dir_candidates {os : OsPath} {sys : OsSys} (fuel : nat)
    (b : JmpBackend) (cwd : dir) (opts : list string) (ebase : string) :
  (1 < List.length opts)%nat ->
  contains os_sep (last opts EmptyString) = true ->
  let base := fst (os_path_split (last opts EmptyString)) in
  expand fuel (jmp_table b) (fst (get_flags (jmp_table b) base)) base
  = ret ebase ->
  (chdir cwd ebase = None ->
   completion fuel b cwd opts = Some (Finished ([], cwd)))
  /\ (forall cwd',
        chdir cwd ebase = Some cwd' -> listdir cwd' ebase = None ->
        completion fuel b cwd opts = Some (Finished ([], cwd')))
  /\ (forall cwd' names,
        chdir cwd ebase = Some cwd' -> listdir cwd' ebase = Some names ->
        exists alist,
          completion fuel b cwd opts
          = Some (Finished
                    (log b (join " " (map quoted alist)) false Stdout, cwd'))
          /\ Permutation alist
               (map (os_path_join base) (filter (isdir_at cwd') names))
          /\ Sorted (fun x y => String.leb x y = true) alist).
Proof.
  intros Hlen Hsep base Hexp.
  assert (Hrun : completion fuel b cwd opts
                 = match chdir cwd ebase with
                   | None => Some (Finished ([], cwd))
                   | Some cwd' =>
                       match listdir cwd' ebase with
                       | None => Some (Finished ([], cwd'))
                       | Some names =>
                           Some (Finished
                                   (log b
                                      (join " "
                                         (map quoted
                                            (sorted_str
                                               (map (os_path_join base)
                                                  (filter (isdir_at cwd')
                                                     names)))))
                                      false Stdout, cwd'))
                       end
                   end).
  { unfold completion.
    destruct (Nat.ltb_spec 1 (List.length opts)) as [_ | Hle]; [| lia].
    rewrite Hsep, (contains_nonempty _ _ Hsep). cbn [negb andb].
    fold base.
    pose proof (get_flags_snd (jmp_table b) base) as Hsnd.
    destruct (get_flags (jmp_table b) base) as [fl tgt].
    cbn [fst snd] in *. subst tgt. rewrite Hexp. reflexivity. }
  rewrite Hrun. split; [| split].
  - intros ->. reflexivity.
  - intros cwd' -> ->. reflexivity.
  - intros cwd' names -> ->. eexists. split; [reflexivity |]. split.
    + apply sorted_str_perm.
    + apply sorted_str_sorted.
Qed.

(** Completing [a/] over the chain of [Demo]: [a] is [/tmp], which holds
    the directory [sub]. *)
Lemma completion_dir_candidates_witness :
  expand (os := Demo.os) 2 Demo.chain
    (fst (get_flags (os := Demo.os) Demo.chain "a")) "a" = ret "/tmp"
  /\ exists alist,
       completion (os := Demo.os) (sys := DemoSys.sys) 2
         (Demo.backend Demo.chain) "/home/u" ["jmp"; "a/"]
       = Some (Finished
                 (log (Demo.backend Demo.chain) (join " " (map quoted alist))
                    false Stdout, "/tmp"))
       /\ Permutation alist ["a/sub"].
Proof.
  split; [reflexivity |].
  assert (Hlen : (1 < List.length ["jmp"; "a/"])%nat) by (cbn; lia).
  destruct (completion_dir_candidates (os := Demo.os) (sys := DemoSys.sys) 2
              (Demo.backend Demo.chain) "/home/u" ["jmp"; "a/"] "/tmp"
              Hlen eq_refl eq_refl) as (_ & _ & Hlist).
  destruct (Hlist "/tmp" ["sub"] eq_refl eq_refl) as (alist & Hrun & Hperm & _).
  exists alist. split; [exact Hrun | exact Hperm].
Defined.
